(** * The references view: input lifecycle and search history (src/tree.ts)

    A shallow embedding of the three classes of [tree.ts]:
    [TreeDataProviderDelegate], [TreeInputHistory] and [SymbolsTree].

    The program is asynchronous but single threaded.  Every [await] of the
    source is a point where a method is suspended; the suspended method is
    kept in the state as a continuation and is resumed by an event that
    carries the answer of the host.  Between two such points the code runs
    without interruption, so one event of the model is one run-to-completion
    piece of the source.

    What lies outside [tree.ts] is a parameter: the answers of
    [isValidRequestPosition], [input.resolve()], [openTextDocument],
    [reveal] and the quick pick arrive with the events; what is answered at
    once ([WordAnchor.guessedTrackedPosition], [input.with], the visibility
    of the widget, [JSON.stringify], ...) is read from a [Host] record that
    comes with each event.  Effects on the host (focus, reveal, open,
    console, disposal of a session) are appended to logs.  The change events
    that a model's own provider may fire, and the teardown in [dispose],
    are not among the events. *)

From Stdlib Require Import List String Ascii Bool Arith Lia Sorted DecimalString.
Import ListNotations.
Local Open Scope string_scope.
Local Open Scope list_scope.

Set Implicit Arguments.

(** ** JavaScript's [Map] with string keys

    A [Map] iterates in insertion order; [set] on a key that is present
    replaces the value where the key stands, [set] on a new key appends,
    [delete] drops the key.  Oldest entry first. *)

Module JsMap.

Section WithValue.
Variable V : Type.

Definition t := list (string * V).

Definition empty : t := [].

Definition size (m : t) : nat := List.length m.

Definition values (m : t) : list V := map snd m.

Definition keys (m : t) : list string := map fst m.

Definition delete (k : string) (m : t) : t :=
  filter (fun e => negb (String.eqb (fst e) k)) m.

Fixpoint set (k : string) (v : V) (m : t) : t :=
  match m with
  | [] => [(k, v)]
  | (k', v') :: r =>
      if String.eqb k' k then (k, v) :: r else (k', v') :: set k v r
  end.

End WithValue.

Arguments empty {V}.

End JsMap.

(** ** Data of the host and of the callers *)

(** [a ?? b] and [a?.f ?? b] of the source, on values that may be
    [undefined]. *)
Definition orElse {A} (a : option A) (b : A) : A :=
  match a with Some x => x | None => b end.
Notation "a ?? b" := (orElse a b) (at level 45, left associativity).

Record Position := { line : nat; character : nat }.

Definition Uri := string.

Record Range := { start : Position; end_ : Position }.

(** [vscode.TextDocument], as far as [TreeInputHistory.add] reads it.  The
    optional argument of [getWordRangeAtPosition] is the source text of the
    regular expression. *)
Record TextDocument := {
  getWordRangeAtPosition : Position -> option string -> option Range;
  getText : Range -> string }.

(** [WordAnchor] of [./utils]: built from a document and a position. *)
Record WordAnchor := { anchor_doc : TextDocument; anchor_position : Position }.

(** [SymbolTreeInput] of [./api].  Inputs are compared by identity
    ([!==]) and by prototype; [oid] is the identity of the object and [proto]
    the identity of its prototype. *)
Record SymbolTreeInput := {
  oid : nat;
  proto : nat;
  contextValue : string;
  title : string;
  uri : Uri;
  position : Position }.

Definition same_object (a b : SymbolTreeInput) : bool := Nat.eqb (oid a) (oid b).

Record SymbolItemNavigation := {
  nearest : Uri -> Position -> option nat }.

(** [SymbolTreeModel] of [./api]: what [input.resolve()] is fulfilled with.
    [dispose] says whether [typeof model.dispose === 'function']. *)
Record Model := {
  provider : nat;
  empty : bool;
  message : option string;
  navigation : option SymbolItemNavigation;
  highlights : option nat;
  dispose : bool }.

(** The providers the delegate can stand for: the history object of this
    file or the provider of a model. *)
Inductive TreeDataProvider :=
| History
| OfModel (provider : nat).

(** A promise handed to [TreeDataProviderDelegate.update].  The delegate
    compares promises by identity; a promise is identified by the place
    that made it and a serial number. *)
Inductive ProviderPromise :=
| ThenOfModel (n : nat)        (* modelPromise.then(model => model.provider) *)
| ResolveOfHistory (n : nat).  (* Promise.resolve(this._history) *)

Definition same_promise (p q : ProviderPromise) : bool :=
  match p, q with
  | ThenOfModel n, ThenOfModel m => Nat.eqb n m
  | ResolveOfHistory n, ResolveOfHistory m => Nat.eqb n m
  | _, _ => false
  end.

Definition is_promise (cur : option ProviderPromise) (p : ProviderPromise) : bool :=
  match cur with Some q => same_promise q p | None => false end.

Definition is_input (cur : option SymbolTreeInput) (i : SymbolTreeInput) : bool :=
  match cur with Some j => same_object j i | None => false end.

Definition Error := string.

Record HistoryItem := {
  key : string;
  word : string;
  anchor : WordAnchor;
  input : SymbolTreeInput;
  description : string }.

(** What the code asks of its surroundings and gets answered at once.  The
    answers depend on the moment of the call (the live documents, the
    widget), so every event comes with the host as it is then. *)
Record Host := {
  tree_visible : bool;                                        (* TreeView.visible *)
  guessedTrackedPosition : WordAnchor -> option Position;     (* WordAnchor, ./utils *)
  input_with : SymbolTreeInput -> Position -> SymbolTreeInput;(* SymbolTreeInput.with *)
  asRelativePath : Uri -> string;                             (* vscode.workspace *)
  toLocaleLowerCase : string -> string;
  JSON_stringify : Position -> Uri -> string -> string }.     (* of the three element array *)

(** The members of a session's [disposables] array. *)
Inductive Disposable :=
| EditorHighlights (hl : nat)
| ChangeListener (i : SymbolTreeInput) (m : Model)
| ModelDisposer (m : Model).

(** Calls into the host that leave no trace in the objects of this file. *)
Inductive HostCall :=
| Focus
| Reveal (node : nat)
| Open (u : Uri) (selection : Range)
| ConsoleError (err : Error)
| ShowQuickPick (picks : list (string * string)).

(** A method stopped at an [await], or a reaction waiting on a promise.
    [AwaitModel i n] is [setInput(i)] waiting for its model together with
    the delegate waiting on the promise [ThenOfModel n] that [setInput] gave
    it; [AwaitProvider n] is the delegate waiting on [ResolveOfHistory n]. *)
Inductive Suspended :=
| AwaitValid (i : SymbolTreeInput)
| AwaitModel (i : SymbolTreeInput) (n : nat)
| AwaitReveal (i : SymbolTreeInput) (m : Model)
| AwaitDocument (i : SymbolTreeInput)
| AwaitProvider (n : nat)
| AwaitQuickPick (entries : list HistoryItem).

(** ** The objects *)

Record TreeDataProviderDelegate := {
  dlg_provider : option ProviderPromise;
  dlg_sessionDispoables : option TreeDataProvider;
  dlg_onDidChange : nat }.

(** A [ContextKey] of [./utils] is the value last published with [set], or
    nothing before the first [set] and after a [reset]. *)
Record TreeInputHistory := {
  _inputs : JsMap.t HistoryItem;
  _ctxHasHistory : option bool }.

(** The orchestrator with the two objects it owns, the methods that are
    suspended, the counter that numbers the promises, and the logs: the
    sessions disposed of and the calls into the host. *)
Record State := {
  _ctxIsActive : option bool;
  _ctxHasResult : option bool;
  _ctxInputSource : option string;
  tree_title : string;
  tree_message : option string;
  _navigation : option SymbolItemNavigation;
  _input : option SymbolTreeInput;
  _sessionDisposable : option (list Disposable);
  _history : TreeInputHistory;
  _provider : TreeDataProviderDelegate;
  suspended : list Suspended;
  serial : nat;
  disposed : list (list Disposable);
  calls : list HostCall }.

(** Assignment to one field. *)

Definition set_ctxIsActive v (s : State) : State :=
  {| _ctxIsActive := v;
     _ctxHasResult := _ctxHasResult s;
     _ctxInputSource := _ctxInputSource s;
     tree_title := tree_title s;
     tree_message := tree_message s;
     _navigation := _navigation s;
     _input := _input s;
     _sessionDisposable := _sessionDisposable s;
     _history := _history s;
     _provider := _provider s;
     suspended := suspended s;
     serial := serial s;
     disposed := disposed s;
     calls := calls s |}.

Definition set_ctxHasResult v (s : State) : State :=
  {| _ctxIsActive := _ctxIsActive s;
     _ctxHasResult := v;
     _ctxInputSource := _ctxInputSource s;
     tree_title := tree_title s;
     tree_message := tree_message s;
     _navigation := _navigation s;
     _input := _input s;
     _sessionDisposable := _sessionDisposable s;
     _history := _history s;
     _provider := _provider s;
     suspended := suspended s;
     serial := serial s;
     disposed := disposed s;
     calls := calls s |}.

Definition set_ctxInputSource v (s : State) : State :=
  {| _ctxIsActive := _ctxIsActive s;
     _ctxHasResult := _ctxHasResult s;
     _ctxInputSource := v;
     tree_title := tree_title s;
     tree_message := tree_message s;
     _navigation := _navigation s;
     _input := _input s;
     _sessionDisposable := _sessionDisposable s;
     _history := _history s;
     _provider := _provider s;
     suspended := suspended s;
     serial := serial s;
     disposed := disposed s;
     calls := calls s |}.

Definition set_tree_title v (s : State) : State :=
  {| _ctxIsActive := _ctxIsActive s;
     _ctxHasResult := _ctxHasResult s;
     _ctxInputSource := _ctxInputSource s;
     tree_title := v;
     tree_message := tree_message s;
     _navigation := _navigation s;
     _input := _input s;
     _sessionDisposable := _sessionDisposable s;
     _history := _history s;
     _provider := _provider s;
     suspended := suspended s;
     serial := serial s;
     disposed := disposed s;
     calls := calls s |}.

Definition set_tree_message v (s : State) : State :=
  {| _ctxIsActive := _ctxIsActive s;
     _ctxHasResult := _ctxHasResult s;
     _ctxInputSource := _ctxInputSource s;
     tree_title := tree_title s;
     tree_message := v;
     _navigation := _navigation s;
     _input := _input s;
     _sessionDisposable := _sessionDisposable s;
     _history := _history s;
     _provider := _provider s;
     suspended := suspended s;
     serial := serial s;
     disposed := disposed s;
     calls := calls s |}.

Definition set_navigation v (s : State) : State :=
  {| _ctxIsActive := _ctxIsActive s;
     _ctxHasResult := _ctxHasResult s;
     _ctxInputSource := _ctxInputSource s;
     tree_title := tree_title s;
     tree_message := tree_message s;
     _navigation := v;
     _input := _input s;
     _sessionDisposable := _sessionDisposable s;
     _history := _history s;
     _provider := _provider s;
     suspended := suspended s;
     serial := serial s;
     disposed := disposed s;
     calls := calls s |}.

Definition set_input v (s : State) : State :=
  {| _ctxIsActive := _ctxIsActive s;
     _ctxHasResult := _ctxHasResult s;
     _ctxInputSource := _ctxInputSource s;
     tree_title := tree_title s;
     tree_message := tree_message s;
     _navigation := _navigation s;
     _input := v;
     _sessionDisposable := _sessionDisposable s;
     _history := _history s;
     _provider := _provider s;
     suspended := suspended s;
     serial := serial s;
     disposed := disposed s;
     calls := calls s |}.

Definition set_sessionDisposable v (s : State) : State :=
  {| _ctxIsActive := _ctxIsActive s;
     _ctxHasResult := _ctxHasResult s;
     _ctxInputSource := _ctxInputSource s;
     tree_title := tree_title s;
     tree_message := tree_message s;
     _navigation := _navigation s;
     _input := _input s;
     _sessionDisposable := v;
     _history := _history s;
     _provider := _provider s;
     suspended := suspended s;
     serial := serial s;
     disposed := disposed s;
     calls := calls s |}.

Definition set_history v (s : State) : State :=
  {| _ctxIsActive := _ctxIsActive s;
     _ctxHasResult := _ctxHasResult s;
     _ctxInputSource := _ctxInputSource s;
     tree_title := tree_title s;
     tree_message := tree_message s;
     _navigation := _navigation s;
     _input := _input s;
     _sessionDisposable := _sessionDisposable s;
     _history := v;
     _provider := _provider s;
     suspended := suspended s;
     serial := serial s;
     disposed := disposed s;
     calls := calls s |}.

Definition set_provider v (s : State) : State :=
  {| _ctxIsActive := _ctxIsActive s;
     _ctxHasResult := _ctxHasResult s;
     _ctxInputSource := _ctxInputSource s;
     tree_title := tree_title s;
     tree_message := tree_message s;
     _navigation := _navigation s;
     _input := _input s;
     _sessionDisposable := _sessionDisposable s;
     _history := _history s;
     _provider := v;
     suspended := suspended s;
     serial := serial s;
     disposed := disposed s;
     calls := calls s |}.

Definition set_suspended v (s : State) : State :=
  {| _ctxIsActive := _ctxIsActive s;
     _ctxHasResult := _ctxHasResult s;
     _ctxInputSource := _ctxInputSource s;
     tree_title := tree_title s;
     tree_message := tree_message s;
     _navigation := _navigation s;
     _input := _input s;
     _sessionDisposable := _sessionDisposable s;
     _history := _history s;
     _provider := _provider s;
     suspended := v;
     serial := serial s;
     disposed := disposed s;
     calls := calls s |}.

Definition set_serial v (s : State) : State :=
  {| _ctxIsActive := _ctxIsActive s;
     _ctxHasResult := _ctxHasResult s;
     _ctxInputSource := _ctxInputSource s;
     tree_title := tree_title s;
     tree_message := tree_message s;
     _navigation := _navigation s;
     _input := _input s;
     _sessionDisposable := _sessionDisposable s;
     _history := _history s;
     _provider := _provider s;
     suspended := suspended s;
     serial := v;
     disposed := disposed s;
     calls := calls s |}.

Definition set_disposed v (s : State) : State :=
  {| _ctxIsActive := _ctxIsActive s;
     _ctxHasResult := _ctxHasResult s;
     _ctxInputSource := _ctxInputSource s;
     tree_title := tree_title s;
     tree_message := tree_message s;
     _navigation := _navigation s;
     _input := _input s;
     _sessionDisposable := _sessionDisposable s;
     _history := _history s;
     _provider := _provider s;
     suspended := suspended s;
     serial := serial s;
     disposed := v;
     calls := calls s |}.

Definition set_calls v (s : State) : State :=
  {| _ctxIsActive := _ctxIsActive s;
     _ctxHasResult := _ctxHasResult s;
     _ctxInputSource := _ctxInputSource s;
     tree_title := tree_title s;
     tree_message := tree_message s;
     _navigation := _navigation s;
     _input := _input s;
     _sessionDisposable := _sessionDisposable s;
     _history := _history s;
     _provider := _provider s;
     suspended := suspended s;
     serial := serial s;
     disposed := disposed s;
     calls := v |}.

Notation "s |> f" := (f s) (at level 50, left associativity, only parsing).

Definition suspend (c : Suspended) (s : State) : State :=
  set_suspended (suspended s ++ [c]) s.

Definition call (c : HostCall) (s : State) : State :=
  set_calls (calls s ++ [c]) s.

(** ** TreeDataProviderDelegate *)

(** [update(provider)], tree.ts:141-146: drop the subscription, fire the
    change event, take the promise.  The two reactions it registers on the
    promise are [update_then] and [update_catch] below; they run when the
    promise settles. *)
Definition TreeDataProviderDelegate_update (p : ProviderPromise) (s : State) : State :=
  set_provider
    {| dlg_provider := Some p;
       dlg_sessionDispoables := None;
       dlg_onDidChange := S (dlg_onDidChange (_provider s)) |} s.

(** tree.ts:148-151 *)
Definition update_then (p : ProviderPromise) (value : TreeDataProvider) (s : State) : State :=
  if is_promise (dlg_provider (_provider s)) p
  then set_provider
         {| dlg_provider := dlg_provider (_provider s);
            dlg_sessionDispoables := Some value;
            dlg_onDidChange := dlg_onDidChange (_provider s) |} s
  else s.

(** tree.ts:152-155 *)
Definition update_catch (err : Error) (s : State) : State :=
  s |> set_provider
         {| dlg_provider := None;
            dlg_sessionDispoables := dlg_sessionDispoables (_provider s);
            dlg_onDidChange := dlg_onDidChange (_provider s) |}
    |> call (ConsoleError err).

(** [getTreeItem], [getChildren] and [getParent] of the delegate are
    [async]: each first runs [_assertProvider] and then awaits the promise
    to call the same method on what it is fulfilled with. *)
Inductive Method := GetTreeItem | GetChildren | GetParent.

Inductive Delegated :=
| Throws (err : Error)
| AwaitsThenCalls (p : ProviderPromise) (m : Method).

Definition _assertProvider (d : TreeDataProviderDelegate) : Error + ProviderPromise :=
  match dlg_provider d with
  | None => inl "MISSING provider"
  | Some p => inr p
  end.

Definition delegate_method (m : Method) (d : TreeDataProviderDelegate) : Delegated :=
  match _assertProvider d with
  | inl err => Throws err
  | inr p => AwaitsThenCalls p m
  end.

Definition TreeDataProviderDelegate_getTreeItem := delegate_method GetTreeItem.
Definition TreeDataProviderDelegate_getChildren := delegate_method GetChildren.
Definition TreeDataProviderDelegate_getParent := delegate_method GetParent.

(** ** TreeInputHistory *)

Definition HistoryItem_new (h : Host) (k w : string) (a : WordAnchor)
    (i : SymbolTreeInput) : HistoryItem :=
  {| key := k; word := w; anchor := a; input := i;
     description := asRelativePath h (uri i) ++ " • " ++ toLocaleLowerCase h (title i) |}.

Definition set_inputs (m : JsMap.t HistoryItem) (s : State) : State :=
  set_history {| _inputs := m; _ctxHasHistory := _ctxHasHistory (_history s) |} s.

Definition set_ctxHasHistory (v : option bool) (s : State) : State :=
  set_history {| _inputs := _inputs (_history s); _ctxHasHistory := v |} s.

(** [add(input)] stops at once on [openTextDocument], tree.ts:261. *)
Definition TreeInputHistory_add (i : SymbolTreeInput) (s : State) : State :=
  suspend (AwaitDocument i) s.

(** The word at the position, or else the run of non-blanks, tree.ts:264. *)
Definition word_range (i : SymbolTreeInput) (doc : TextDocument) : option Range :=
  match getWordRangeAtPosition doc (position i) None with
  | Some r => Some r
  | None => getWordRangeAtPosition doc (position i) (Some "[^\s]+")
  end.

(** The item [add] builds once the document is there, tree.ts:263-267. *)
Definition add_item (h : Host) (i : SymbolTreeInput) (doc : TextDocument) : HistoryItem :=
  let anchor := {| anchor_doc := doc; anchor_position := position i |} in
  let range := word_range i doc in
  let word := match range with Some r => getText doc r | None => "???" end in
  HistoryItem_new h
    (JSON_stringify h (option_map start range ?? position i) (uri i) (title i))
    word anchor i.

(** The three values the key is made of. *)
Definition key_triple (i : SymbolTreeInput) (doc : TextDocument)
    : Position * Uri * string :=
  (option_map start (word_range i doc) ?? position i, uri i, title i).

(** tree.ts:268-271 *)
Definition add_resume (h : Host) (i : SymbolTreeInput) (doc : TextDocument)
    (s : State) : State :=
  let item := add_item h i doc in
  s |> (fun s => set_inputs (JsMap.delete (key item) (_inputs (_history s))) s)
    |> (fun s => set_inputs (JsMap.set (key item) item (_inputs (_history s))) s)
    |> set_ctxHasHistory (Some true).

(** The history's own change event reaches the delegate when the delegate
    is subscribed to the history, and the delegate fires its own event. *)
Definition history_fire (s : State) : State :=
  match dlg_sessionDispoables (_provider s) with
  | Some History =>
      set_provider
        {| dlg_provider := dlg_provider (_provider s);
           dlg_sessionDispoables := dlg_sessionDispoables (_provider s);
           dlg_onDidChange := S (dlg_onDidChange (_provider s)) |} s
  | _ => s
  end.

Definition TreeInputHistory_clear (s : State) : State :=
  s |> set_inputs JsMap.empty
    |> set_ctxHasHistory (Some false)
    |> history_fire.

Definition TreeInputHistory_size (s : State) : nat :=
  JsMap.size (_inputs (_history s)).

(** An argument of a command: a [HistoryItem] or anything else. *)
Inductive Arg :=
| Item (item : HistoryItem)
| Other.

Record Command := {
  command : string;
  arguments : list Arg;
  command_title : string }.

Record TreeItem := {
  label : string;
  item_description : string;
  item_command : Command;
  collapsible : bool;
  item_contextValue : string }.

Definition TreeInputHistory_getTreeItem (item : HistoryItem) : TreeItem :=
  {| label := word item;
     item_description := description item;
     item_command :=
       {| command := "_references-view.showHistoryItem";
          arguments := [Item item];
          command_title := "Rerun" |};
     collapsible := false;
     item_contextValue := "history-item" |}.

Definition TreeInputHistory_getChildren (s : State) : list HistoryItem :=
  rev (JsMap.values (_inputs (_history s))).

Definition TreeInputHistory_getParent : option HistoryItem := None.

(** ** SymbolsTree *)

Definition getInput (s : State) : option SymbolTreeInput := _input s.

(** [this._sessionDisposable?.dispose()]; the field keeps the object. *)
Definition dispose_session (s : State) : State :=
  match _sessionDisposable s with
  | Some d => set_disposed (disposed s ++ [d]) s
  | None => s
  end.

(** tree.ts:113-121.  The promise of the last line is fulfilled from the
    start; its reaction in the delegate still runs later. *)
Definition clearInput (s : State) : State :=
  s |> dispose_session
    |> set_input None
    |> set_ctxHasResult (Some false)
    |> set_ctxInputSource None
    |> set_tree_title "References"
    |> (fun s => set_tree_message
                   (Some (if Nat.eqb (TreeInputHistory_size s) 0
                          then "No results."
                          else "No results. Try running a previous search again:")) s)
    |> (fun s =>
          let n := serial s in
          s |> set_serial (S n)
            |> TreeDataProviderDelegate_update (ResolveOfHistory n)
            |> suspend (AwaitProvider n)).

(** [setInput(input)] stops at once on [isValidRequestPosition], tree.ts:48. *)
Definition setInput (i : SymbolTreeInput) (s : State) : State :=
  suspend (AwaitValid i) s.

(** tree.ts:48-70, from the answer of [isValidRequestPosition] to the
    [await] of the model. *)
Definition setInput_validated (i : SymbolTreeInput) (valid : bool) (s : State) : State :=
  if negb valid then clearInput s
  else
    let newInputKind :=
      match _input s with
      | None => true
      | Some j => negb (Nat.eqb (proto j) (proto i))
      end in
    s |> set_ctxInputSource (Some (contextValue i))
      |> set_ctxIsActive (Some true)
      |> set_ctxHasResult (Some true)
      |> call Focus
      |> set_input (Some i)
      |> dispose_session
      |> set_tree_title (title i)
      |> (fun s => set_tree_message (if newInputKind then None else tree_message s) s)
      |> (fun s =>
            let n := serial s in
            s |> set_serial (S n)
              |> TreeDataProviderDelegate_update (ThenOfModel n)
              |> suspend (AwaitModel i n)).

(** tree.ts:92-110 *)
Definition setInput_finish (i : SymbolTreeInput) (m : Model) (s : State) : State :=
  let disposables :=
    (match highlights m with Some hl => [EditorHighlights hl] | None => [] end)
      ++ [ChangeListener i m]
      ++ (if dispose m then [ModelDisposer m] else []) in
  set_sessionDisposable (Some disposables) s.

(** tree.ts:70-90, from the model to the [await] of [reveal] or, without
    one, to the end. *)
Definition setInput_resolved (h : Host) (i : SymbolTreeInput) (m : Model)
    (s : State) : State :=
  if negb (is_input (_input s) i) then s
  else if empty m then clearInput s
  else
    let s := s |> TreeInputHistory_add i
               |> set_tree_message (message m)
               |> set_navigation (navigation m) in
    let selection :=
      match navigation m with
      | Some nav => nearest nav (uri i) (position i)
      | None => None
      end in
    match selection with
    | Some node =>
        if tree_visible h
        then s |> call (Reveal node) |> suspend (AwaitReveal i m)
        else setInput_finish i m s
    | None => setInput_finish i m s
    end.

(** ** The commands registered by the history, tree.ts:207-245 *)

Definition _reRunHistoryItem (h : Host) (item : HistoryItem) (s : State) : State :=
  let s := set_inputs (JsMap.delete (key item) (_inputs (_history s))) s in
  let newInput :=
    input_with h (input item)
      (guessedTrackedPosition h (anchor item) ?? position (input item)) in
  setInput newInput s.

Definition showHistoryItem (h : Host) (item : HistoryItem) (s : State) : State :=
  let position := guessedTrackedPosition h (anchor item) ?? position (input item) in
  call (Open (uri (input item)) {| start := position; end_ := position |}) s.

Definition executeCommand (h : Host) (name : string) (args : list Arg)
    (s : State) : State :=
  if String.eqb name "references-view.clear" then clearInput s
  else if String.eqb name "references-view.clearHistory" then
    s |> TreeInputHistory_clear |> clearInput
  else if String.eqb name "references-view.refind" then
    match args with
    | Item item :: _ => _reRunHistoryItem h item s
    | _ => s
    end
  else if String.eqb name "references-view.refresh" then
    match JsMap.values (_inputs (_history s)) with
    | item :: _ => _reRunHistoryItem h item s
    | [] => s
    end
  else if String.eqb name "_references-view.showHistoryItem" then
    match args with
    | Item item :: _ => showHistoryItem h item s
    | _ => s
    end
  else if String.eqb name "references-view.pickFromHistory" then
    let entries := TreeInputHistory_getChildren s in
    s |> call (ShowQuickPick (map (fun item => (word item, description item)) entries))
      |> suspend (AwaitQuickPick entries)
  else s.

(** The host runs the command of a tree item when the item is activated. *)
Definition activate (h : Host) (ti : TreeItem) (s : State) : State :=
  executeCommand h (command (item_command ti)) (arguments (item_command ti)) s.

(** ** Events *)

(** What the host answers to a suspended method. *)
Inductive Answer :=
| Valid (b : bool)
| Fulfilled (m : Model)
| Rejected (err : Error)
| Opened (doc : TextDocument)
| Done
| Picked (n : option nat).

(** Resuming a continuation that has been taken off the list.  When the
    model promise settles, the continuation of [setInput] runs before the
    reaction of the delegate: [setInput] awaits the model promise itself,
    the delegate a promise derived from it. *)
Definition resume (h : Host) (c : Suspended) (a : Answer) (s : State) : option State :=
  match c, a with
  | AwaitValid i, Valid b => Some (setInput_validated i b s)
  | AwaitValid _, Rejected _ => Some s
  | AwaitModel i n, Fulfilled m =>
      Some (s |> setInput_resolved h i m
              |> update_then (ThenOfModel n) (OfModel (provider m)))
  | AwaitModel _ _, Rejected err => Some (update_catch err s)
  | AwaitReveal i m, Done => Some (setInput_finish i m s)
  | AwaitReveal _ _, Rejected _ => Some s
  | AwaitDocument i, Opened doc => Some (add_resume h i doc s)
  | AwaitDocument _, Rejected _ => Some s
  | AwaitProvider n, Done => Some (update_then (ResolveOfHistory n) History s)
  | AwaitQuickPick entries, Picked (Some n) =>
      match nth_error entries n with
      | Some item => Some (_reRunHistoryItem h item s)
      | None => None
      end
  | AwaitQuickPick _, Picked None => Some s
  | _, _ => None
  end.

Definition without (k : nat) (s : State) : State :=
  set_suspended (firstn k (suspended s) ++ skipn (S k) (suspended s)) s.

Inductive Event :=
| CallSetInput (i : SymbolTreeInput)
| CallClearInput
| RunCommand (name : string) (args : list Arg)
| Activate (item : HistoryItem)
| Settle (k : nat) (a : Answer).

(** One event.  An answer that fits no suspended method changes nothing. *)
Definition step (h : Host) (e : Event) (s : State) : State :=
  match e with
  | CallSetInput i => setInput i s
  | CallClearInput => clearInput s
  | RunCommand name args => executeCommand h name args s
  | Activate item => activate h (TreeInputHistory_getTreeItem item) s
  | Settle k a =>
      match nth_error (suspended s) k with
      | Some c =>
          match resume h c a (without k s) with
          | Some s' => s'
          | None => s
          end
      | None => s
      end
  end.

Definition run (tr : list (Host * Event)) (s : State) : State :=
  fold_left (fun s he => step (fst he) (snd he) s) tr s.

(** The objects as their constructors leave them; the title the widget
    starts with is the host's. *)
Definition initial (title0 : string) : State :=
  {| _ctxIsActive := None;
     _ctxHasResult := None;
     _ctxInputSource := None;
     tree_title := title0;
     tree_message := None;
     _navigation := None;
     _input := None;
     _sessionDisposable := None;
     _history := {| _inputs := JsMap.empty; _ctxHasHistory := None |};
     _provider := {| dlg_provider := None;
                     dlg_sessionDispoables := None;
                     dlg_onDidChange := 0 |};
     suspended := [];
     serial := 0;
     disposed := [];
     calls := [] |}.

(** ** The operations that change the history cache *)

Inductive HistoryOp :=
| OpAdd (h : Host) (i : SymbolTreeInput) (doc : TextDocument)
| OpReRun (h : Host) (item : HistoryItem)
| OpClear.

Definition history_op (op : HistoryOp) (s : State) : State :=
  match op with
  | OpAdd h i doc => add_resume h i doc s
  | OpReRun h item => _reRunHistoryItem h item s
  | OpClear => TreeInputHistory_clear s
  end.

Definition history_ops (ops : list HistoryOp) (s : State) : State :=
  fold_left (fun s op => history_op op s) ops s.

(** When and with which item a key was last inserted, if it has not been
    removed since; the operations come latest first and are numbered from
    the oldest, which is number 0. *)
Fixpoint inserted_rev (rops : list HistoryOp) (k : string) : option (nat * HistoryItem) :=
  match rops with
  | [] => None
  | OpAdd h i doc :: r =>
      if String.eqb (key (add_item h i doc)) k
      then Some (List.length r, add_item h i doc)
      else inserted_rev r k
  | OpReRun _ item :: r =>
      if String.eqb (key item) k then None else inserted_rev r k
  | OpClear :: _ => None
  end.

Definition inserted (ops : list HistoryOp) (k : string) : option (nat * HistoryItem) :=
  inserted_rev (rev ops) k.

(** [a] is retained and was inserted after the retained [b]. *)
Definition newer (ops : list HistoryOp) (a b : HistoryItem) : Prop :=
  exists ta tb,
    inserted ops (key a) = Some (ta, a) /\
    inserted ops (key b) = Some (tb, b) /\
    tb < ta.

Definition retained (ops : list HistoryOp) (a : HistoryItem) : Prop :=
  exists t, inserted ops (key a) = Some (t, a).

(** The cache of a state. *)
Definition cache (s : State) : JsMap.t HistoryItem := _inputs (_history s).

Arguments add_item : simpl never.

(** Key [k1] was inserted before key [k2], both being retained. *)
Definition before (rops : list HistoryOp) (k1 k2 : string) : Prop :=
  exists t1 i1 t2 i2,
    inserted_rev rops k1 = Some (t1, i1) /\
    inserted_rev rops k2 = Some (t2, i2) /\
    t1 < t2.

Definition cache_inv (rops : list HistoryOp) (m : JsMap.t HistoryItem) : Prop :=
  (forall k item, In (k, item) m <-> exists t, inserted_rev rops k = Some (t, item))
  /\ StronglySorted (fun e1 e2 => before rops (fst e1) (fst e2)) m.

(** [getChildren] in state [s] lists exactly the items retained after the
    operations [ops], each before every item inserted earlier. *)
Definition most_recent_first (ops : list HistoryOp) (s : State) : Prop :=
  (forall item, In item (TreeInputHistory_getChildren s) <-> retained ops item)
  /\ StronglySorted (newer ops) (TreeInputHistory_getChildren s).

(** State [s'] is state [s] in everything but the history, the methods
    that wait and the calls into the host. *)
Definition untouched_outside (s s' : State) : Prop :=
  _ctxIsActive s' = _ctxIsActive s
  /\ _ctxHasResult s' = _ctxHasResult s
  /\ _ctxInputSource s' = _ctxInputSource s
  /\ tree_title s' = tree_title s
  /\ tree_message s' = tree_message s
  /\ _navigation s' = _navigation s
  /\ _input s' = _input s
  /\ _sessionDisposable s' = _sessionDisposable s
  /\ _provider s' = _provider s
  /\ serial s' = serial s
  /\ disposed s' = disposed s.

(** What the re-run of [item] in state [s] leaves, in what can be observed:
    the key of the item is gone from the cache and the flag is as it was;
    the position is the one the anchor gives or else the stored one;
    [setInput] has been called with [input.with] of that position, so the
    validity check of that input is awaited, and once the check answers
    yes that input is the current one; nothing else differs. *)
Definition reruns (h : Host) (item : HistoryItem) (s s' : State) : Prop :=
  let refreshed := guessedTrackedPosition h (anchor item) ?? position (input item) in
  let newInput := input_with h (input item) refreshed in
  _inputs (_history s') = JsMap.delete (key item) (_inputs (_history s))
  /\ _ctxHasHistory (_history s') = _ctxHasHistory (_history s)
  /\ suspended s' = suspended s ++ [AwaitValid newInput]
  /\ calls s' = calls s
  /\ untouched_outside s s'
  /\ (forall h',
        let s'' := step h' (Settle (List.length (suspended s)) (Valid true)) s' in
        _input s'' = Some newInput /\ tree_title s'' = title newInput).

(** [references-view.refresh] in state [s]: on an empty history nothing
    changes; otherwise the item re-run is the last of [getChildren], it is
    retained after [ops], and every other item listed was inserted later. *)
Definition refresh_reruns_oldest (ops : list HistoryOp) (h : Host)
    (args : list Arg) (s : State) : Prop :=
  let s' := step h (RunCommand "references-view.refresh" args) s in
  match rev (TreeInputHistory_getChildren s) with
  | [] => s' = s
  | oldest :: others =>
      s' = _reRunHistoryItem h oldest s
      /\ reruns h oldest s s'
      /\ retained ops oldest
      /\ Forall (fun item => newer ops item oldest) others
  end.

(** ** The operations on the cache that a run of the system performs *)

(** The operations one event performs on the cache, read off the state
    before the event. *)
Definition event_ops (h : Host) (e : Event) (s : State) : list HistoryOp :=
  match e with
  | RunCommand name args =>
      if String.eqb name "references-view.clearHistory" then [OpClear]
      else if String.eqb name "references-view.refind" then
        match args with
        | Item item :: _ => [OpReRun h item]
        | _ => []
        end
      else if String.eqb name "references-view.refresh" then
        match JsMap.values (cache s) with
        | item :: _ => [OpReRun h item]
        | [] => []
        end
      else []
  | Settle k a =>
      match nth_error (suspended s) k, a with
      | Some (AwaitDocument i), Opened doc => [OpAdd h i doc]
      | Some (AwaitQuickPick entries), Picked (Some n) =>
          match nth_error entries n with
          | Some item => [OpReRun h item]
          | None => []
          end
      | _, _ => []
      end
  | _ => []
  end.

Fixpoint journal (tr : list (Host * Event)) (s : State) : list HistoryOp :=
  match tr with
  | [] => []
  | (h, e) :: r => event_ops h e s ++ journal r (step h e s)
  end.

(** ** What is observed *)

(** What the user sees of the orchestrator: title, "has result" flag, input
    source, status message, the promise behind the delegate, current input. *)
Definition visible (s : State) :=
  (tree_title s, _ctxHasResult s, _ctxInputSource s, tree_message s,
   dlg_provider (_provider s), _input s).

(** The "has history" flag says whether the cache has entries. *)
Definition flag_matches_size (s : State) : Prop :=
  _ctxHasHistory (_history s) = Some true <-> 0 < TreeInputHistory_size s.

(** As long as [setInput(i)] waits for its model with the promise number
    [n], the delegate holds that promise only while [i] is the current
    input. *)
Definition promise_follows_input (s : State) : Prop :=
  forall i n, In (AwaitModel i n) (suspended s) ->
    n < serial s
    /\ (is_promise (dlg_provider (_provider s)) (ThenOfModel n) = true ->
        is_input (_input s) i = true).

(** A change that starts no resolution and leaves the delegate's promise
    alone unless it replaces it by one that is no model's. *)
Definition benign (s s' : State) : Prop :=
  (forall i n, In (AwaitModel i n) (suspended s') -> In (AwaitModel i n) (suspended s))
  /\ serial s <= serial s'
  /\ (forall n, is_promise (dlg_provider (_provider s')) (ThenOfModel n) = true ->
        is_promise (dlg_provider (_provider s)) (ThenOfModel n) = true
        /\ _input s' = _input s).

(** ** A concrete host, inputs and models *)

Definition lower (c : ascii) : ascii :=
  let n := nat_of_ascii c in
  if Nat.leb 65 n && Nat.leb n 90 then ascii_of_nat (n + 32) else c.

Fixpoint lowercase (s : string) : string :=
  match s with
  | EmptyString => EmptyString
  | String c r => String (lower c) (lowercase r)
  end.

Definition show_nat (n : nat) : string := NilEmpty.string_of_uint (Nat.to_uint n).

(** A host in which the view is hidden and no anchor can be found again. *)
Definition host0 : Host :=
  {| tree_visible := false;
     guessedTrackedPosition := fun _ => None;
     input_with := fun i p =>
       {| oid := 100 + oid i; proto := proto i; contextValue := contextValue i;
          title := title i; uri := uri i; position := p |};
     asRelativePath := fun u => u;
     toLocaleLowerCase := lowercase;
     JSON_stringify := fun p u t =>
       ("[" ++ show_nat (line p) ++ "," ++ show_nat (character p) ++ ","
            ++ u ++ "," ++ t ++ "]")%string |}.

(** The same host once the anchors are found three lines further down. *)
Definition host1 : Host :=
  {| tree_visible := tree_visible host0;
     guessedTrackedPosition := fun a =>
       Some {| line := 3 + line (anchor_position a);
               character := character (anchor_position a) |};
     input_with := input_with host0;
     asRelativePath := asRelativePath host0;
     toLocaleLowerCase := toLocaleLowerCase host0;
     JSON_stringify := JSON_stringify host0 |}.

Definition inputA : SymbolTreeInput :=
  {| oid := 1; proto := 7; contextValue := "referencesInput";
     title := "References"; uri := "fileA";
     position := {| line := 10; character := 4 |} |}.

(** Another request in the same word of the same file. *)
Definition inputA' : SymbolTreeInput :=
  {| oid := 3; proto := 7; contextValue := "referencesInput";
     title := "References"; uri := "fileA";
     position := {| line := 10; character := 6 |} |}.

Definition inputB : SymbolTreeInput :=
  {| oid := 2; proto := 7; contextValue := "referencesInput";
     title := "References"; uri := "fileB";
     position := {| line := 2; character := 1 |} |}.

(** A document with the word foo at 10:4-10:7 and nothing else. *)
Definition docA : TextDocument :=
  {| getWordRangeAtPosition := fun p _ =>
       if Nat.eqb (line p) 10 && Nat.leb 4 (character p) && Nat.leb (character p) 7
       then Some {| start := {| line := 10; character := 4 |};
                    end_ := {| line := 10; character := 7 |} |}
       else None;
     getText := fun _ => "foo" |}.

Definition docB : TextDocument :=
  {| getWordRangeAtPosition := fun _ _ => None;
     getText := fun _ => EmptyString |}.

Definition model1 : Model :=
  {| provider := 1; empty := false; message := None; navigation := None;
     highlights := None; dispose := false |}.

Definition model2 : Model :=
  {| provider := 2; empty := false; message := Some "2 results";
     navigation := None; highlights := Some 0; dispose := true |}.

Definition modelEmpty : Model :=
  {| provider := 3; empty := true; message := None; navigation := None;
     highlights := None; dispose := false |}.

Definition itemA : HistoryItem := add_item host0 inputA docA.
Definition itemB : HistoryItem := add_item host0 inputB docB.

(** [setInput(inputA)] is called, the position is valid, the model promise
    is pending. *)
Definition resolvingA : State :=
  run [(host0, CallSetInput inputA); (host0, Settle 0 (Valid true))]
      (initial "References").

(** ... then [setInput(inputB)] is called and gets as far: [inputB] has
    replaced [inputA], both model promises are pending. *)
Definition resolvingAB : State :=
  run [(host0, CallSetInput inputB); (host0, Settle 1 (Valid true))] resolvingA.

(** [inputA] resolved to a model with results and its history entry has
    been added. *)
Definition shownA : State :=
  run [(host0, Settle 0 (Fulfilled model1)); (host0, Settle 0 (Opened docA))]
      resolvingA.

(** ** The pieces every event is made of *)

(** One uninterrupted piece of one method.  Every event is a sequence of
    these, so what each piece keeps, every run keeps. *)
Inductive piece : State -> State -> Prop :=
| piece_without k s : piece s (without k s)
| piece_suspend c s : piece s (suspend c s)
| piece_call c s : piece s (call c s)
| piece_clearInput s : piece s (clearInput s)
| piece_validated i s : piece s (setInput_validated i true s)
| piece_resolved h i m s : piece s (setInput_resolved h i m s)
| piece_finish i m s : piece s (setInput_finish i m s)
| piece_then p v s : piece s (update_then p v s)
| piece_catch err s : piece s (update_catch err s)
| piece_add h i doc s : piece s (add_resume h i doc s)
| piece_delete k s : piece s (set_inputs (JsMap.delete k (_inputs (_history s))) s)
| piece_clear s : piece s (TreeInputHistory_clear s).

Inductive pieces : State -> State -> Prop :=
| pieces_nil s : pieces s s
| pieces_cons s1 s2 s3 : piece s1 s2 -> pieces s2 s3 -> pieces s1 s3.

(** There is a current input exactly when "has result" is published as
    true, and then the input source is that input's. *)
Definition result_follows_input (s : State) : Prop :=
  match _input s with
  | Some i =>
      _ctxHasResult s = Some true
      /\ _ctxIsActive s = Some true
      /\ _ctxInputSource s = Some (contextValue i)
  | None => _ctxHasResult s <> Some true /\ _ctxInputSource s = None
  end.

(** A cache with entries has the "has history" flag true. *)
Definition flag_covers_cache (s : State) : Prop :=
  0 < TreeInputHistory_size s -> _ctxHasHistory (_history s) = Some true.

(** The delegate holds no promise only before the first [update] or after
    a rejection that was logged; it holds a promise or a subscription only
    after an [update]. *)
Definition unset_is_explained (s : State) : Prop :=
  (dlg_provider (_provider s) = None ->
   dlg_onDidChange (_provider s) = 0 \/ exists err, In (ConsoleError err) (calls s))
  /\ (dlg_provider (_provider s) <> None -> 0 < dlg_onDidChange (_provider s))
  /\ (dlg_sessionDispoables (_provider s) <> None -> 0 < dlg_onDidChange (_provider s)).

(** Every entry of the map holds an item under the item's own key. *)
Definition keyed_by_own_key (m : JsMap.t HistoryItem) : Prop :=
  forall k item, In (k, item) m -> key item = k.

(** The events of the two traces that lead to [resolvingAB] and [shownA]. *)
Definition trace_resolvingAB : list (Host * Event) :=
  [(host0, CallSetInput inputA); (host0, Settle 0 (Valid true));
   (host0, CallSetInput inputB); (host0, Settle 1 (Valid true))].

Definition trace_shownA : list (Host * Event) :=
  [(host0, CallSetInput inputA); (host0, Settle 0 (Valid true));
   (host0, Settle 0 (Fulfilled model1)); (host0, Settle 0 (Opened docA))].

(** ** Facts about the map *)

Module JsMapFacts.
Import JsMap.

Section WithValue.
Variable V : Type.
Implicit Types (m : t V) (k : string).

Lemma delete_In k e m : In e (delete k m) <-> In e m /\ fst e <> k.
Proof.
  unfold delete. rewrite filter_In, negb_true_iff.
  destruct (String.eqb_spec (fst e) k); intuition congruence.
Qed.

Lemma delete_keys k m : ~ In k (keys (delete k m)).
Proof.
  unfold keys. rewrite in_map_iff. intros [e [E I]].
  apply delete_In in I. tauto.
Qed.

Lemma set_absent k v m : ~ In k (keys m) -> set k v m = m ++ [(k, v)].
Proof.
  unfold keys. induction m as [|[k' v'] r IH]; simpl; [reflexivity|].
  intros N. destruct (String.eqb_spec k' k) as [E|E].
  - exfalso. apply N. now left.
  - f_equal. apply IH. tauto.
Qed.

(** The idiom of [TreeInputHistory.add]: [delete] then [set] moves the key to
    the most recent end. *)
Lemma set_delete k v m : set k v (delete k m) = delete k m ++ [(k, v)].
Proof. apply set_absent, delete_keys. Qed.

Lemma delete_NoDup k m : NoDup (keys m) -> NoDup (keys (delete k m)).
Proof.
  unfold delete, keys. induction m as [|[k' v'] r IH]; simpl; [trivial|].
  intros N. inversion N as [|? ? Nin Nr]; subst.
  destruct (String.eqb k' k); simpl; [now apply IH|].
  constructor; [|now apply IH].
  intros I. apply Nin. apply in_map_iff in I. destruct I as [e [E I]].
  apply filter_In in I. apply in_map_iff. exists e. tauto.
Qed.

End WithValue.

End JsMapFacts.

(** ** Lists in order *)

Section Ordered.
Variable A : Type.

Lemma StronglySorted_filter (R : A -> A -> Prop) (f : A -> bool) (l : list A) :
  StronglySorted R l -> StronglySorted R (filter f l).
Proof.
  induction 1 as [|a l S IH F]; simpl; [constructor|].
  destruct (f a); [|exact IH].
  constructor; [exact IH|].
  rewrite Forall_forall in *. intros x I. apply filter_In in I. apply F, I.
Qed.

Lemma StronglySorted_snoc (R : A -> A -> Prop) (l : list A) (x : A) :
  StronglySorted R l -> Forall (fun a => R a x) l -> StronglySorted R (l ++ [x]).
Proof.
  induction 1 as [|a l S IH F]; simpl; intros Fx.
  - constructor; constructor.
  - inversion Fx; subst. constructor; [now apply IH|].
    apply Forall_app. split; [exact F|]. constructor; [assumption|constructor].
Qed.

Lemma StronglySorted_weaken (R R' : A -> A -> Prop) (l : list A) :
  (forall a b, In a l -> In b l -> R a b -> R' a b) ->
  StronglySorted R l -> StronglySorted R' l.
Proof.
  intros W S. induction S as [|a l S IH F]; [constructor|].
  constructor.
  - apply IH. intros x y Ix Iy. apply W; now right.
  - rewrite Forall_forall in *. intros x Ix. apply W; [now left|now right|now apply F].
Qed.

End Ordered.

Lemma StronglySorted_rev_map (A B : Type) (R : A -> A -> Prop) (R' : B -> B -> Prop)
    (f : A -> B) (l : list A) :
  (forall a b, In a l -> In b l -> R a b -> R' (f b) (f a)) ->
  StronglySorted R l -> StronglySorted R' (rev (map f l)).
Proof.
  intros W S. induction S as [|a l S IH F]; simpl; [constructor|].
  apply StronglySorted_snoc.
  - apply IH. intros x y Ix Iy. apply W; now right.
  - rewrite Forall_forall in *. intros y Iy.
    apply in_rev, in_map_iff in Iy. destruct Iy as [x [E Ix]]. subst y.
    apply W; [now left|now right|now apply F].
Qed.

(** ** The history cache under its operations *)

Lemma cache_add_resume h i doc s :
  cache (add_resume h i doc s)
  = JsMap.delete (key (add_item h i doc)) (cache s)
      ++ [(key (add_item h i doc), add_item h i doc)].
Proof. unfold add_resume, cache. simpl. apply JsMapFacts.set_delete. Qed.

Lemma cache_reRun h item s :
  cache (_reRunHistoryItem h item s) = JsMap.delete (key item) (cache s).
Proof. reflexivity. Qed.

Lemma cache_history_fire s : cache (history_fire s) = cache s.
Proof.
  unfold history_fire.
  destruct (dlg_sessionDispoables (_provider s)) as [[|]|]; reflexivity.
Qed.

Lemma cache_clear s : cache (TreeInputHistory_clear s) = [].
Proof. unfold TreeInputHistory_clear. now rewrite cache_history_fire. Qed.

Lemma history_ops_snoc ops op s :
  history_ops (ops ++ [op]) s = history_op op (history_ops ops s).
Proof. unfold history_ops. now rewrite fold_left_app. Qed.

Lemma inserted_rev_bound rops k t item :
  inserted_rev rops k = Some (t, item) -> t < List.length rops /\ key item = k.
Proof.
  induction rops as [|[h i doc|h it|] r IH]; cbn [inserted_rev List.length];
    try discriminate.
  - destruct (String.eqb_spec (key (add_item h i doc)) k) as [E|E].
    + intros H. inversion H; subst. split; [lia|reflexivity].
    + intros H. apply IH in H. split; [lia|tauto].
  - destruct (String.eqb (key it) k); [discriminate|].
    intros H. apply IH in H. split; [lia|tauto].
Qed.

Lemma before_kept rops op k1 k2 :
  inserted_rev (op :: rops) k1 = inserted_rev rops k1 ->
  inserted_rev (op :: rops) k2 = inserted_rev rops k2 ->
  before rops k1 k2 -> before (op :: rops) k1 k2.
Proof.
  intros E1 E2 (t1 & i1 & t2 & i2 & H1 & H2 & L).
  exists t1, i1, t2, i2. rewrite E1, E2. tauto.
Qed.

Lemma cache_inv_delete rops op k0 (m : JsMap.t HistoryItem) :
  (forall k, k <> k0 -> inserted_rev (op :: rops) k = inserted_rev rops k) ->
  StronglySorted (fun e1 e2 => before rops (fst e1) (fst e2)) m ->
  StronglySorted (fun e1 e2 => before (op :: rops) (fst e1) (fst e2))
    (JsMap.delete k0 m).
Proof.
  intros K S.
  apply StronglySorted_weaken
    with (R := fun e1 e2 : string * HistoryItem => before rops (fst e1) (fst e2)).
  - intros a b Ia Ib. apply JsMapFacts.delete_In in Ia, Ib.
    apply before_kept; apply K; tauto.
  - now apply StronglySorted_filter.
Qed.

Lemma cache_inv_step op rops s :
  cache_inv rops (cache s) -> cache_inv (op :: rops) (cache (history_op op s)).
Proof.
  intros [M S]. destruct op as [h i doc|h it|]; simpl history_op.
  - rewrite cache_add_resume.
    set (item := add_item h i doc) in *. set (k0 := key item) in *.
    assert (K : forall k, k <> k0 ->
              inserted_rev (OpAdd h i doc :: rops) k = inserted_rev rops k).
    { intros k N. cbn [inserted_rev]. fold item. fold k0.
      destruct (String.eqb_spec k0 k); congruence. }
    assert (K0 : inserted_rev (OpAdd h i doc :: rops) k0
                 = Some (List.length rops, item)).
    { cbn [inserted_rev]. fold item. fold k0. now rewrite String.eqb_refl. }
    split.
    + intros k x. rewrite in_app_iff, JsMapFacts.delete_In. simpl fst.
      destruct (String.eqb_spec k k0) as [E|E].
      * subst k. split.
        -- intros [[_ N]|[H|[]]]; [congruence|]. inversion H; subst.
           exists (List.length rops). exact K0.
        -- intros [t H]. rewrite K0 in H. inversion H; subst. right. now left.
      * split.
        -- intros [[I _]|[H|[]]]; [|inversion H; congruence].
           apply M in I. destruct I as [t T]. exists t. now rewrite (K k E).
        -- intros [t T]. rewrite (K k E) in T. left.
           split; [apply M; eauto|exact E].
    + apply StronglySorted_snoc; [now apply cache_inv_delete|].
      apply Forall_forall. intros [k x] I. apply JsMapFacts.delete_In in I.
      cbn [fst] in *. destruct I as [I N]. apply M in I. destruct I as [t T].
      exists t, x, (List.length rops), item. rewrite (K k N), K0.
      pose proof (inserted_rev_bound _ _ T). tauto.
  - rewrite cache_reRun.
    assert (K : forall k, k <> key it ->
              inserted_rev (OpReRun h it :: rops) k = inserted_rev rops k).
    { intros k N. cbn [inserted_rev].
      destruct (String.eqb_spec (key it) k); congruence. }
    split.
    + intros k x. rewrite JsMapFacts.delete_In. simpl fst.
      destruct (String.eqb_spec k (key it)) as [E|E].
      * subst k. split.
        -- intros [_ N]. congruence.
        -- intros [t H]. cbn [inserted_rev] in H.
           rewrite String.eqb_refl in H. discriminate.
      * split.
        -- intros [I _]. apply M in I. destruct I as [t T].
           exists t. now rewrite (K k E).
        -- intros [t T]. rewrite (K k E) in T. split; [apply M; eauto|exact E].
    + now apply cache_inv_delete.
  - rewrite cache_clear. split.
    + intros k x. simpl. split; [intros []|intros [t H]; discriminate].
    + constructor.
Qed.

Lemma cache_inv_ops rops s :
  cache s = [] -> cache_inv rops (cache (history_ops (rev rops) s)).
Proof.
  intros E. induction rops as [|op r IH]; simpl rev.
  - simpl. rewrite E. split; [|constructor].
    intros k x. simpl. split; [intros []|intros [t H]; discriminate].
  - rewrite history_ops_snoc. now apply cache_inv_step.
Qed.

Lemma inserted_key ops k t item :
  inserted ops k = Some (t, item) -> key item = k.
Proof. intros H. now apply inserted_rev_bound in H. Qed.

Lemma children_retained ops s item :
  cache s = [] ->
  In item (TreeInputHistory_getChildren (history_ops ops s)) <-> retained ops item.
Proof.
  intros E. destruct (cache_inv_ops (rev ops) s E) as [M _].
  rewrite rev_involutive in M.
  unfold TreeInputHistory_getChildren, JsMap.values, retained, inserted.
  fold (cache (history_ops ops s)).
  rewrite <- in_rev, in_map_iff. split.
  - intros [[k x] [Ex I]]. simpl in Ex. subst x. apply M in I.
    destruct I as [t T]. exists t.
    pose proof (inserted_rev_bound _ _ T) as [_ K]. now rewrite K.
  - intros [t T]. exists (key item, item). split; [reflexivity|].
    apply M. eauto.
Qed.

Lemma children_sorted ops s :
  cache s = [] ->
  StronglySorted (newer ops) (TreeInputHistory_getChildren (history_ops ops s)).
Proof.
  intros E. destruct (cache_inv_ops (rev ops) s E) as [M S].
  rewrite rev_involutive in M, S.
  unfold TreeInputHistory_getChildren, JsMap.values.
  fold (cache (history_ops ops s)).
  eapply StronglySorted_rev_map; [|exact S].
  intros [ka a] [kb b] Ia Ib (t1 & i1 & t2 & i2 & H1 & H2 & L). simpl in *.
  apply M in Ia, Ib. destruct Ia as [ta Ta], Ib as [tb Tb].
  pose proof (inserted_rev_bound _ _ Ta) as [_ Ka].
  pose proof (inserted_rev_bound _ _ Tb) as [_ Kb].
  rewrite Ta in H1. rewrite Tb in H2. inversion H1; inversion H2; subst.
  exists t2, t1. unfold inserted. rewrite Ta, Tb. tauto.
Qed.

Lemma StronglySorted_last (A : Type) (R : A -> A -> Prop) (l : list A) (x : A) :
  StronglySorted R (l ++ [x]) -> Forall (fun a => R a x) l.
Proof.
  induction l as [|a l IH]; simpl; intros S; [constructor|].
  inversion S as [|? ? S' F]; subst. constructor; [|now apply IH].
  rewrite Forall_forall in F. apply F, in_or_app. right. now left.
Qed.

Lemma key_add_item h i doc :
  key (add_item h i doc)
  = JSON_stringify h (fst (fst (key_triple i doc))) (snd (fst (key_triple i doc)))
      (snd (key_triple i doc)).
Proof. reflexivity. Qed.

Lemma filter_key_delete (V : Type) k (m : JsMap.t V) :
  filter (fun e => String.eqb (fst e) k) (JsMap.delete k m) = [].
Proof.
  unfold JsMap.delete. induction m as [|[k' v] r IH]; simpl; [reflexivity|].
  destruct (String.eqb k' k) eqn:E; simpl; [exact IH|].
  now rewrite E.
Qed.

(** ** What [clearInput] leaves *)

Lemma clearInput_visible s :
  visible (clearInput s)
  = ("References", Some false, None,
     Some (if Nat.eqb (TreeInputHistory_size s) 0
           then "No results."
           else "No results. Try running a previous search again:"),
     Some (ResolveOfHistory (serial s)), None).
Proof.
  unfold clearInput, dispose_session, visible.
  destruct (_sessionDisposable s); reflexivity.
Qed.

Ltac clearInput_field s :=
  unfold clearInput, dispose_session; destruct (_sessionDisposable s); reflexivity.

Lemma clearInput_history s : _history (clearInput s) = _history s.
Proof. clearInput_field s. Qed.

Lemma clearInput_suspended s :
  suspended (clearInput s) = suspended s ++ [AwaitProvider (serial s)].
Proof. clearInput_field s. Qed.

Lemma clearInput_calls s : calls (clearInput s) = calls s.
Proof. clearInput_field s. Qed.

Lemma clearInput_ctxIsActive s : _ctxIsActive (clearInput s) = _ctxIsActive s.
Proof. clearInput_field s. Qed.

Lemma clearInput_ctxHasResult s : _ctxHasResult (clearInput s) = Some false.
Proof. clearInput_field s. Qed.

Lemma clearInput_ctxInputSource s : _ctxInputSource (clearInput s) = None.
Proof. clearInput_field s. Qed.

Lemma clearInput_title s : tree_title (clearInput s) = "References".
Proof. clearInput_field s. Qed.

Lemma clearInput_input s : _input (clearInput s) = None.
Proof. clearInput_field s. Qed.

Lemma clearInput_provider s :
  dlg_provider (_provider (clearInput s)) = Some (ResolveOfHistory (serial s)).
Proof. clearInput_field s. Qed.

Lemma clearInput_without k s :
  visible (clearInput (without k s)) = visible (clearInput s).
Proof. now rewrite !clearInput_visible. Qed.

Lemma update_then_other p value s :
  is_promise (dlg_provider (_provider s)) p = false -> update_then p value s = s.
Proof. unfold update_then. now intros ->. Qed.

Lemma update_then_after_clearInput n value s :
  update_then (ThenOfModel n) value (clearInput s) = clearInput s.
Proof.
  apply update_then_other. now rewrite clearInput_provider.
Qed.

(** ** The operations on the cache that a run performs *)

Lemma cache_history_op op a b :
  cache a = cache b -> cache (history_op op a) = cache (history_op op b).
Proof.
  intros E. destruct op as [h i doc|h it|]; simpl history_op.
  - now rewrite !cache_add_resume, E.
  - now rewrite !cache_reRun, E.
  - now rewrite !cache_clear.
Qed.

Lemma cache_history_ops ops a b :
  cache a = cache b -> cache (history_ops ops a) = cache (history_ops ops b).
Proof.
  revert a b. induction ops as [|op r IH]; intros a b E; [exact E|].
  simpl. apply IH. now apply cache_history_op.
Qed.

Lemma cache_clearInput s : cache (clearInput s) = cache s.
Proof. unfold cache. now rewrite clearInput_history. Qed.

Lemma cache_setInput_validated i b s : cache (setInput_validated i b s) = cache s.
Proof.
  unfold setInput_validated. destruct b; simpl negb; cbv iota.
  - unfold dispose_session; simpl. destruct (_sessionDisposable s); reflexivity.
  - apply cache_clearInput.
Qed.

Lemma cache_update_then p v s : cache (update_then p v s) = cache s.
Proof. unfold update_then. destruct (is_promise _ p); reflexivity. Qed.

Lemma cache_setInput_resolved h i m s : cache (setInput_resolved h i m s) = cache s.
Proof.
  unfold setInput_resolved.
  destruct (negb (is_input (_input s) i)); [reflexivity|].
  destruct (empty m); [apply cache_clearInput|].
  destruct (navigation m) as [nav|]; [|reflexivity].
  destruct (nearest nav (uri i) (position i)); [|reflexivity].
  destruct (tree_visible h); reflexivity.
Qed.

Lemma cache_resume h c a s s' :
  resume h c a s = Some s' ->
  cache s'
  = cache (history_ops
             match c, a with
             | AwaitDocument i, Opened doc => [OpAdd h i doc]
             | AwaitQuickPick entries, Picked (Some n) =>
                 match nth_error entries n with
                 | Some item => [OpReRun h item]
                 | None => []
                 end
             | _, _ => []
             end s).
Proof.
  destruct c, a as [b|m'|err|doc| |[pick|]]; simpl resume; try discriminate;
    intros R; inversion R; subst; clear R; try reflexivity.
  - apply cache_setInput_validated.
  - now rewrite cache_update_then, cache_setInput_resolved.
  - apply cache_update_then.
  - destruct (nth_error entries pick); [|discriminate].
    inversion H0; subst. reflexivity.
Qed.

Lemma cache_step h e s :
  cache (step h e s) = cache (history_ops (event_ops h e s) s).
Proof.
  destruct e as [i| |name args|item|k a]; simpl step.
  - reflexivity.
  - apply cache_clearInput.
  - unfold executeCommand, event_ops.
    destruct (String.eqb_spec name "references-view.clear") as [->|_];
      [apply cache_clearInput|].
    destruct (String.eqb_spec name "references-view.clearHistory") as [->|_].
    { rewrite cache_clearInput. reflexivity. }
    destruct (String.eqb_spec name "references-view.refind") as [->|_].
    { destruct args as [|[item|] args]; reflexivity. }
    destruct (String.eqb_spec name "references-view.refresh") as [->|_].
    { fold (cache s). destruct (JsMap.values (cache s)); reflexivity. }
    destruct (String.eqb_spec name "_references-view.showHistoryItem") as [->|_].
    { destruct args as [|[item|] args]; reflexivity. }
    destruct (String.eqb_spec name "references-view.pickFromHistory") as [->|_];
      reflexivity.
  - reflexivity.
  - unfold event_ops. destruct (nth_error (suspended s) k) as [c|]; [|reflexivity].
    destruct (resume h c a (without k s)) as [s'|] eqn:R.
    + rewrite (cache_resume _ _ _ _ R).
      apply cache_history_ops. reflexivity.
    + destruct c, a as [b|m'|err|doc| |[pick|]]; try discriminate; try reflexivity.
      simpl in R. destruct (nth_error entries pick); [discriminate|reflexivity].
Qed.

Lemma history_ops_app ops1 ops2 s :
  history_ops (ops1 ++ ops2) s = history_ops ops2 (history_ops ops1 s).
Proof. unfold history_ops. apply fold_left_app. Qed.

(** The cache after a run of the system is the cache after the operations
    the run performed. *)
Lemma cache_run tr s : cache (run tr s) = cache (history_ops (journal tr s) s).
Proof.
  revert s. induction tr as [|[h e] r IH]; intros s; [reflexivity|].
  simpl run. simpl journal. rewrite history_ops_app.
  change (fold_left (fun s he => step (fst he) (snd he) s) r (step h e s))
    with (run r (step h e s)).
  rewrite IH. apply cache_history_ops, cache_step.
Qed.

Lemma children_of_cache a b :
  cache a = cache b -> TreeInputHistory_getChildren a = TreeInputHistory_getChildren b.
Proof. unfold TreeInputHistory_getChildren, cache. now intros ->. Qed.

Lemma NoDup_snoc (A : Type) (l : list A) (x : A) :
  NoDup l -> ~ In x l -> NoDup (l ++ [x]).
Proof.
  induction 1 as [|a l N D IH]; simpl; intros I.
  - constructor; [intros []|constructor].
  - constructor.
    + intros J. apply in_app_or in J. destruct J as [J|[J|[]]]; [tauto|].
      apply I. now left.
    + apply IH. intros J. apply I. now right.
Qed.

Lemma keys_history_op op s :
  NoDup (JsMap.keys (cache s)) -> NoDup (JsMap.keys (cache (history_op op s))).
Proof.
  intros N. destruct op as [h i doc|h it|]; simpl history_op.
  - rewrite cache_add_resume. unfold JsMap.keys. rewrite map_app. simpl.
    apply NoDup_snoc; [now apply JsMapFacts.delete_NoDup|].
    apply JsMapFacts.delete_keys.
  - rewrite cache_reRun. now apply JsMapFacts.delete_NoDup.
  - rewrite cache_clear. constructor.
Qed.

(** In every state the system can reach the keys of the cache are
    distinct, as they are in a [Map]. *)
Lemma keys_run (title0 : string) (tr : list (Host * Event)) :
  NoDup (JsMap.keys (cache (run tr (initial title0)))).
Proof.
  rewrite cache_run. generalize (journal tr (initial title0)). intros ops.
  assert (G : forall s, NoDup (JsMap.keys (cache s)) ->
                NoDup (JsMap.keys (cache (history_ops ops s)))).
  { induction ops as [|op r IH]; intros s N; [exact N|].
    simpl. apply IH. now apply keys_history_op. }
  apply G. constructor.
Qed.

Lemma most_recent_first_of_cache ops s0 s :
  cache s0 = [] -> cache s = cache (history_ops ops s0) -> most_recent_first ops s.
Proof.
  intros E0 E. unfold most_recent_first. rewrite (children_of_cache _ _ E). split.
  - intros item. now apply children_retained.
  - now apply children_sorted.
Qed.

Lemma nth_error_snoc (A : Type) (l : list A) (x : A) :
  nth_error (l ++ [x]) (List.length l) = Some x.
Proof. rewrite nth_error_app2, Nat.sub_diag by lia. reflexivity. Qed.

Lemma drop_last (A : Type) (l : list A) (x : A) :
  firstn (List.length l) (l ++ [x]) ++ skipn (S (List.length l)) (l ++ [x]) = l.
Proof.
  induction l as [|a l IH]; [reflexivity|].
  cbn [List.length app firstn skipn]. f_equal. exact IH.
Qed.

Lemma without_snoc c s :
  without (List.length (suspended s)) (suspend c s) = s.
Proof.
  unfold without, suspend.
  change (suspended (set_suspended (suspended s ++ [c]) s)) with (suspended s ++ [c]).
  rewrite drop_last. destruct s; reflexivity.
Qed.

Lemma setInput_validated_current i s :
  _input (setInput_validated i true s) = Some i
  /\ tree_title (setInput_validated i true s) = title i.
Proof.
  unfold setInput_validated, dispose_session. simpl.
  destruct (_sessionDisposable s); split; reflexivity.
Qed.

(** [_reRunHistoryItem] does what a re-run is. *)
Lemma reRun_reruns h item s : reruns h item s (_reRunHistoryItem h item s).
Proof.
  unfold reruns. cbv zeta.
  split; [reflexivity|]. split; [reflexivity|]. split; [reflexivity|].
  split; [reflexivity|]. split; [unfold untouched_outside; repeat split|].
  intros h'.
  set (newInput := input_with h (input item)
                     (guessedTrackedPosition h (anchor item) ?? position (input item))).
  set (s0 := set_inputs (JsMap.delete (key item) (_inputs (_history s))) s).
  change (_reRunHistoryItem h item s) with (suspend (AwaitValid newInput) s0).
  change (suspended s) with (suspended s0).
  unfold step.
  change (suspended (suspend (AwaitValid newInput) s0))
    with (suspended s0 ++ [AwaitValid newInput]).
  rewrite nth_error_snoc, without_snoc. simpl resume.
  apply setInput_validated_current.
Qed.

Lemma pick_reruns h k n entries item s :
  nth_error (suspended s) k = Some (AwaitQuickPick entries) ->
  nth_error entries n = Some item ->
  step h (Settle k (Picked (Some n))) s = _reRunHistoryItem h item (without k s).
Proof. intros K E. unfold step. rewrite K. simpl resume. now rewrite E. Qed.

Lemma refresh_of_most_recent_first ops h args s :
  most_recent_first ops s -> refresh_reruns_oldest ops h args s.
Proof.
  intros [M S]. unfold refresh_reruns_oldest.
  assert (V : rev (TreeInputHistory_getChildren s) = JsMap.values (cache s)).
  { unfold TreeInputHistory_getChildren. apply rev_involutive. }
  assert (R : step h (RunCommand "references-view.refresh" args) s
              = match JsMap.values (cache s) with
                | item :: _ => _reRunHistoryItem h item s
                | [] => s
                end) by reflexivity.
  cbv zeta. rewrite V. destruct (JsMap.values (cache s)) as [|oldest others] eqn:E.
  - exact R.
  - split; [exact R|]. split; [rewrite R; apply reRun_reruns|].
    assert (G : TreeInputHistory_getChildren s = rev others ++ [oldest]).
    { rewrite <- (rev_involutive (TreeInputHistory_getChildren s)), V. reflexivity. }
    split.
    + apply M. rewrite G. apply in_or_app. right. now left.
    + rewrite G in S. apply StronglySorted_last in S.
      rewrite Forall_forall in *. intros x I. apply S. now apply -> in_rev.
Qed.

(** ** The history *)

(** C5. After any sequence of the operations that change the history cache
    (an add landing, the removal of the re-run action, a clear),
    [getChildren] returns exactly the items that are retained, each before
    every item that was inserted earlier: most recently added first.  The
    same holds after any run of the whole system, for the operations that
    the run performed on the cache. *)
Theorem getChildren_most_recent_first (title0 : string) :
  (forall ops, most_recent_first ops (history_ops ops (initial title0)))
  /\ (forall tr,
        most_recent_first (journal tr (initial title0)) (run tr (initial title0))).
Proof.
  split.
  - intros ops. now apply most_recent_first_of_cache with (initial title0).
  - intros tr. apply most_recent_first_of_cache with (initial title0);
      [reflexivity|apply cache_run].
Qed.

(** C4. Two inputs whose key triples (start position, uri, title) agree are
    added, with any operations of the cache between the two adds.  After
    the second add the cache holds exactly one entry under their common key,
    the item of the second add, and it stands at the most recent end: last
    in the map, first in [getChildren]. *)
Theorem add_same_key_once_most_recent
    (h1 h2 : Host) (i1 i2 : SymbolTreeInput) (d1 d2 : TextDocument)
    (ops : list HistoryOp) (s : State) :
  JSON_stringify h1 = JSON_stringify h2 ->
  key_triple i1 d1 = key_triple i2 d2 ->
  let k := key (add_item h1 i1 d1) in
  let item2 := add_item h2 i2 d2 in
  let s' := add_resume h2 i2 d2 (history_ops ops (add_resume h1 i1 d1 s)) in
  key item2 = k
  /\ filter (fun e => String.eqb (fst e) k) (cache s') = [(k, item2)]
  /\ (exists older, cache s' = older ++ [(k, item2)] /\ ~ In k (JsMap.keys older))
  /\ hd_error (TreeInputHistory_getChildren s') = Some item2.
Proof.
  intros HJ HT k item2 s'.
  assert (K : key item2 = k).
  { unfold k, item2. rewrite !key_add_item, HJ, HT. reflexivity. }
  assert (C : cache s'
              = JsMap.delete k (cache (history_ops ops (add_resume h1 i1 d1 s)))
                  ++ [(k, item2)]).
  { unfold s'. rewrite cache_add_resume. fold item2. now rewrite K. }
  split; [exact K|]. split; [|split].
  - rewrite C, filter_app, filter_key_delete. simpl.
    now rewrite String.eqb_refl.
  - eexists. split; [exact C|]. apply JsMapFacts.delete_keys.
  - unfold TreeInputHistory_getChildren, JsMap.values.
    fold (cache s'). rewrite C, map_app, rev_app_distr. reflexivity.
Qed.

Lemma add_same_key_once_most_recent_witness :
  JSON_stringify host0 = JSON_stringify host1
  /\ key_triple inputA docA = key_triple inputA' docA
  /\ let item2 := add_item host1 inputA' docA in
     let s' := add_resume host1 inputA' docA
                 (history_ops [OpAdd host0 inputB docB]
                    (add_resume host0 inputA docA (initial "References"))) in
     key item2 = "[10,4,fileA,References]"
     /\ filter (fun e => String.eqb (fst e) "[10,4,fileA,References]") (cache s')
        = [("[10,4,fileA,References]", item2)]
     /\ (exists older,
           cache s' = older ++ [("[10,4,fileA,References]", item2)]
           /\ ~ In "[10,4,fileA,References]" (JsMap.keys older))
     /\ hd_error (TreeInputHistory_getChildren s') = Some item2.
Proof.
  split; [reflexivity|]. split; [reflexivity|].
  apply (@add_same_key_once_most_recent host0 host1 inputA inputA' docA docA
           [OpAdd host0 inputB docB] (initial "References"));
    reflexivity.
Defined.

(** The scenario of the history: one add gives one item with the word at the
    position; an add in the same word, after another file's add, leaves one
    item for the key and makes it the most recent; a clear empties the cache
    and lowers the flag. *)
Example history_scenario :
  let ops := [OpAdd host0 inputA docA; OpAdd host0 inputB docB;
              OpAdd host1 inputA' docA] in
  let s1 := history_ops (firstn 1 ops) (initial "References") in
  let s3 := history_ops ops (initial "References") in
  let s4 := history_op OpClear s3 in
  map word (TreeInputHistory_getChildren s1) = ["foo"]
  /\ map (fun item => oid (input item)) (TreeInputHistory_getChildren s3) = [3; 2]
  /\ option_map fst (inserted ops "[10,4,fileA,References]") = Some 2
  /\ option_map fst (inserted ops "[2,1,fileB,References]") = Some 1
  /\ TreeInputHistory_size s4 = 0
  /\ _ctxHasHistory (_history s4) = Some false
  /\ TreeInputHistory_getChildren s4 = [].
Proof. cbv zeta. repeat apply conj; vm_compute; reflexivity. Qed.

(** C10. [references-view.refresh] re-runs the first value of the map, which
    is the last of [getChildren]: the retained item that was inserted before
    every other retained item, the least recently added and not the most
    recent.  To re-run it is to remove its key from the cache and to call
    [setInput] with [input.with] of the position refreshed from the anchor,
    or of the stored one, so that the validity check of that input is
    awaited; nothing else changes.  On an empty history the command changes
    nothing.  This holds after any sequence of operations on the cache and
    after any run of the system. *)
Theorem refresh_reruns_least_recent (title0 : string) (h : Host) (args : list Arg) :
  (forall ops,
     refresh_reruns_oldest ops h args (history_ops ops (initial title0)))
  /\ (forall tr,
        refresh_reruns_oldest (journal tr (initial title0)) h args
          (run tr (initial title0))).
Proof.
  split; intros x; apply refresh_of_most_recent_first;
    apply most_recent_first_of_cache with (initial title0);
    try reflexivity.
  apply cache_run.
Qed.

(** ** The orchestrator's events *)

(** C3. The model of the current input arrives and is empty: the event
    leaves exactly what [clearInput()] leaves.  Title, "has result" flag,
    input source, message, promise behind the delegate and current input are
    those of [clearInput()]; the cache is untouched and the only method left
    waiting in addition is the delegate's reaction to the history promise,
    so no [add] was started. *)
Theorem empty_result_is_clearInput
    (h : Host) (s : State) (k : nat) (i : SymbolTreeInput) (n : nat) (m : Model) :
  nth_error (suspended s) k = Some (AwaitModel i n) ->
  is_input (_input s) i = true ->
  empty m = true ->
  let s' := step h (Settle k (Fulfilled m)) s in
  s' = clearInput (without k s)
  /\ visible s' = visible (clearInput s)
  /\ visible s'
     = ("References", Some false, None,
        Some (if Nat.eqb (TreeInputHistory_size s) 0
              then "No results."
              else "No results. Try running a previous search again:"),
        Some (ResolveOfHistory (serial s)), None)
  /\ _history s' = _history s
  /\ suspended s' = suspended (without k s) ++ [AwaitProvider (serial s)].
Proof.
  intros K C E s'.
  assert (R : s' = clearInput (without k s)).
  { unfold s', step. rewrite K. cbn [resume]. unfold setInput_resolved.
    change (_input (without k s)) with (_input s). rewrite C, E. simpl negb.
    cbv iota. now rewrite update_then_after_clearInput. }
  rewrite R. split; [reflexivity|]. split; [apply clearInput_without|].
  split; [now rewrite clearInput_without, clearInput_visible|].
  split; [now rewrite clearInput_history|].
  now rewrite clearInput_suspended.
Qed.

Lemma empty_result_is_clearInput_witness :
  nth_error (suspended resolvingA) 0 = Some (AwaitModel inputA 0)
  /\ is_input (_input resolvingA) inputA = true
  /\ empty modelEmpty = true
  /\ let s := step host0 (Settle 0 (Fulfilled modelEmpty)) resolvingA in
     s = clearInput (without 0 resolvingA)
     /\ visible s = visible (clearInput resolvingA)
     /\ visible s
        = ("References", Some false, None, Some "No results.",
           Some (ResolveOfHistory 1), None)
     /\ _history s = _history resolvingA
     /\ suspended s = [AwaitProvider 1].
Proof.
  split; [reflexivity|]. split; [reflexivity|]. split; [reflexivity|].
  apply (@empty_result_is_clearInput host0 resolvingA 0 inputA 0 modelEmpty);
    reflexivity.
Defined.

(** C8 as stated fails where the check fails by rejecting, as it does
    when it throws: [setInput(inputB)] waits for the check while [inputA]
    is being resolved, the check is rejected, and the state is the one
    without the waiting method, which is not what [clearInput()] leaves:
    "has result" is still true, [inputA] is still current and the delegate
    still holds its promise. *)
Lemma rejected_check_is_not_clearInput :
  let s := setInput inputB resolvingA in
  let s' := step host0 (Settle 1 (Rejected "cannot open")) s in
  nth_error (suspended s) 1 = Some (AwaitValid inputB)
  /\ s' = without 1 s
  /\ _ctxHasResult s' = Some true
  /\ _input s' = Some inputA
  /\ dlg_provider (_provider s') = Some (ThenOfModel 0)
  /\ suspended s' = [AwaitModel inputA 0]
  /\ s' <> clearInput (without 1 s).
Proof.
  cbv zeta.
  split; [vm_compute; reflexivity|]. split; [vm_compute; reflexivity|].
  split; [vm_compute; reflexivity|]. split; [vm_compute; reflexivity|].
  split; [vm_compute; reflexivity|]. split; [vm_compute; reflexivity|].
  intros E. apply (f_equal _input) in E. vm_compute in E. discriminate E.
Qed.

(** C8, amended.  The validity check of an input answers no: the event
    leaves exactly what [clearInput()] leaves.  "Has result" is false, the
    title is the default label, the delegate holds the promise of the
    history; "is active" is as it was, the host was not called (no focus
    request) and the only method left waiting in addition is the delegate's
    reaction to the history promise, so no resolution was started.  The
    check is rejected instead: [setInput] ends there, since it awaits the
    check without catching, and the state is as before but for the method
    that no longer waits; neither [clearInput()] nor any effect of an
    active input has happened. *)
Theorem invalid_position_is_clearInput
    (h : Host) (s : State) (k : nat) (i : SymbolTreeInput) (err : Error) :
  nth_error (suspended s) k = Some (AwaitValid i) ->
  let s' := step h (Settle k (Valid false)) s in
  let r := step h (Settle k (Rejected err)) s in
  (s' = clearInput (without k s)
   /\ _ctxHasResult s' = Some false
   /\ tree_title s' = "References"
   /\ dlg_provider (_provider s') = Some (ResolveOfHistory (serial s))
   /\ _input s' = None
   /\ _ctxInputSource s' = None
   /\ _ctxIsActive s' = _ctxIsActive s
   /\ calls s' = calls s
   /\ suspended s' = suspended (without k s) ++ [AwaitProvider (serial s)])
  /\ (r = without k s
      /\ untouched_outside s r
      /\ _history r = _history s
      /\ calls r = calls s
      /\ suspended r = firstn k (suspended s) ++ skipn (S k) (suspended s)).
Proof.
  intros K s' r. split.
  - assert (R : s' = clearInput (without k s)).
    { unfold s', step. now rewrite K. }
    rewrite R, clearInput_ctxHasResult, clearInput_title, clearInput_provider,
      clearInput_input, clearInput_ctxInputSource, clearInput_ctxIsActive,
      clearInput_calls, clearInput_suspended.
    repeat split.
  - assert (R : r = without k s).
    { unfold r, step. now rewrite K. }
    rewrite R. unfold untouched_outside. repeat split.
Qed.

Lemma invalid_position_is_clearInput_witness :
  nth_error (suspended (setInput inputB resolvingA)) 1 = Some (AwaitValid inputB)
  /\ let s := step host0 (Settle 1 (Valid false)) (setInput inputB resolvingA) in
     let r := step host0 (Settle 1 (Rejected "cannot open"))
                (setInput inputB resolvingA) in
     (s = clearInput (without 1 (setInput inputB resolvingA))
      /\ _ctxHasResult s = Some false
      /\ tree_title s = "References"
      /\ dlg_provider (_provider s) = Some (ResolveOfHistory 1)
      /\ _input s = None
      /\ _ctxInputSource s = None
      /\ _ctxIsActive s = Some true
      /\ calls s = [Focus]
      /\ suspended s = [AwaitModel inputA 0; AwaitProvider 1])
     /\ (r = without 1 (setInput inputB resolvingA)
         /\ untouched_outside (setInput inputB resolvingA) r
         /\ _history r = _history resolvingA
         /\ calls r = [Focus]
         /\ suspended r = [AwaitModel inputA 0]).
Proof.
  split; [reflexivity|].
  apply (@invalid_position_is_clearInput host0 (setInput inputB resolvingA) 1 inputB
           "cannot open").
  reflexivity.
Defined.

(** ** A superseded resolution *)

(** The model of an input that is no longer current arrives, and the
    delegate holds another promise: the event only takes the waiting method
    off the list. *)
Lemma superseded_fulfilled_is_dropped
    (h : Host) (s : State) (k : nat) (i : SymbolTreeInput) (n : nat) (m : Model) :
  nth_error (suspended s) k = Some (AwaitModel i n) ->
  is_input (_input s) i = false ->
  is_promise (dlg_provider (_provider s)) (ThenOfModel n) = false ->
  step h (Settle k (Fulfilled m)) s = without k s.
Proof.
  intros K C P. unfold step. rewrite K. cbn [resume]. unfold setInput_resolved.
  change (_input (without k s)) with (_input s). rewrite C. simpl negb. cbv iota.
  now apply update_then_other.
Qed.

(** The resolution of any input fails: [setInput] ends there, and the
    reaction of the delegate runs whatever promise the delegate holds by
    then. *)
Lemma rejected_resolution
    (h : Host) (s : State) (k : nat) (i : SymbolTreeInput) (n : nat) (err : Error) :
  nth_error (suspended s) k = Some (AwaitModel i n) ->
  step h (Settle k (Rejected err)) s = update_catch err (without k s).
Proof. intros K. unfold step. now rewrite K. Qed.

(** C1, at the input where it fails.  [setInput(inputA)] and then
    [setInput(inputB)] have both passed validation, so [inputB] is current
    and the delegate holds the promise of [inputB]'s provider.  Now the
    resolution of [inputA] is rejected.  The orchestrator's own fields stay
    as they are, but the delegate loses the promise of [inputB] and the
    error is logged; the tree operations fail from then on, and the
    delegate never subscribes to the provider of [inputB]'s model when that
    arrives. *)
Theorem stale_rejection_unsets_provider :
  let s := step host0 (Settle 0 (Rejected "boom")) resolvingAB in
  let s2 := step host0 (Settle 0 (Fulfilled model2)) s in
  nth_error (suspended resolvingAB) 0 = Some (AwaitModel inputA 0)
  /\ is_input (_input resolvingAB) inputA = false
  /\ is_input (_input resolvingAB) inputB = true
  /\ dlg_provider (_provider resolvingAB) = Some (ThenOfModel 1)
  /\ suspended s = [AwaitModel inputB 1]
  /\ dlg_provider (_provider s) = None
  /\ calls s = calls resolvingAB ++ [ConsoleError "boom"]
  /\ TreeDataProviderDelegate_getChildren (_provider s) = Throws "MISSING provider"
  /\ (tree_title s, tree_message s, _navigation s, _input s, TreeInputHistory_size s)
     = (tree_title resolvingAB, tree_message resolvingAB, _navigation resolvingAB,
        _input resolvingAB, TreeInputHistory_size resolvingAB)
  /\ tree_message s2 = Some "2 results"
  /\ dlg_provider (_provider s2) = None
  /\ dlg_sessionDispoables (_provider s2) = None.
Proof. cbv zeta. repeat apply conj; vm_compute; reflexivity. Qed.

(** ** The "has history" flag *)

Lemma add_keeps_flag h i doc s : flag_matches_size (add_resume h i doc s).
Proof.
  unfold flag_matches_size, TreeInputHistory_size.
  fold (cache (add_resume h i doc s)). rewrite cache_add_resume.
  unfold JsMap.size. rewrite length_app. simpl. split; [lia|reflexivity].
Qed.

Lemma clear_keeps_flag s : flag_matches_size (TreeInputHistory_clear s).
Proof.
  unfold flag_matches_size, TreeInputHistory_size.
  fold (cache (TreeInputHistory_clear s)). rewrite cache_clear.
  unfold TreeInputHistory_clear, history_fire.
  destruct (dlg_sessionDispoables _) as [[|]|]; simpl; split;
    (discriminate || lia).
Qed.

(** C2, at the input where it fails.  The history holds the one entry of
    [inputA] and the flag is true.  [references-view.refresh] re-runs that
    entry: the cache is empty and the flag is still true.  The re-run's
    search then comes back empty, and the state settles with an empty cache,
    the flag true and the message of an empty history. *)
Theorem rerun_leaves_flag_set :
  let s := step host0 (RunCommand "references-view.refresh" []) shownA in
  let s2 := run [(host0, Settle 0 (Valid true));
                 (host0, Settle 0 (Fulfilled modelEmpty))] s in
  flag_matches_size shownA
  /\ TreeInputHistory_size shownA = 1
  /\ TreeInputHistory_size s = 0
  /\ _ctxHasHistory (_history s) = Some true
  /\ ~ flag_matches_size s
  /\ TreeInputHistory_size s2 = 0
  /\ _ctxHasHistory (_history s2) = Some true
  /\ tree_message s2 = Some "No results.".
Proof.
  cbv zeta. split; [|split; [|split; [|split; [|split; [|split; [|split]]]]]];
    try (vm_compute; reflexivity).
  - unfold flag_matches_size. vm_compute. split; [intros _; constructor|reflexivity].
  - unfold flag_matches_size. vm_compute. intros [F _].
    specialize (F eq_refl). inversion F.
Qed.

(** ** The actions on a history item *)

Lemma reRun_effects h item s :
  let s' := _reRunHistoryItem h item s in
  let refreshed := guessedTrackedPosition h (anchor item) ?? position (input item) in
  cache s' = JsMap.delete (key item) (cache s)
  /\ suspended s' = suspended s ++ [AwaitValid (input_with h (input item) refreshed)]
  /\ calls s' = calls s.
Proof. repeat split. Qed.

Lemma showHistoryItem_effects h item s :
  let s' := showHistoryItem h item s in
  let refreshed := guessedTrackedPosition h (anchor item) ?? position (input item) in
  cache s' = cache s
  /\ suspended s' = suspended s
  /\ calls s' = calls s ++ [Open (uri (input item))
                                 {| start := refreshed; end_ := refreshed |}].
Proof. repeat split. Qed.

(** C6 as stated fails: on the state that shows the entry of [inputA],
    activating that entry leaves it in the cache and calls no [setInput];
    the re-run action would have done both. *)
Lemma activation_does_not_rerun :
  let s := step host1 (Activate itemA) shownA in
  let r := _reRunHistoryItem host1 itemA shownA in
  In itemA (TreeInputHistory_getChildren s)
  /\ suspended s = []
  /\ ~ In itemA (TreeInputHistory_getChildren r)
  /\ suspended r
     = [AwaitValid (input_with host1 inputA {| line := 13; character := 4 |})]
  /\ s <> r.
Proof.
  cbv zeta. split; [|split; [|split; [|split]]].
  - left. reflexivity.
  - reflexivity.
  - intros [].
  - reflexivity.
  - intros E. apply (f_equal suspended) in E. discriminate E.
Qed.

(** C6, amended.  Activating a history tree item runs the command of the
    item built by [getTreeItem], which is the show-history-item action: the
    history and the waiting methods are as before, the host is asked to
    open the item's document at the position refreshed from the anchor, or
    at the stored position when the anchor gives none, and nothing else
    changes.  The re-run action (removal from the cache, refreshed
    position, [input.with], [setInput]) is what [references-view.refind]
    does with its item, what [references-view.refresh] does with the oldest
    item of a history that has one, and what a pick in the quick pick of
    [references-view.pickFromHistory] does with the entry picked. *)
Theorem activation_shows_history_item
    (h h' : Host) (item picked : HistoryItem) (args : list Arg) (s s2 : State)
    (k n : nat) (entries : list HistoryItem) :
  nth_error (suspended s2) k = Some (AwaitQuickPick entries) ->
  nth_error entries n = Some picked ->
  let s' := step h (Activate item) s in
  let refreshed := guessedTrackedPosition h (anchor item) ?? position (input item) in
  (s' = showHistoryItem h item s
   /\ cache s' = cache s
   /\ _history s' = _history s
   /\ suspended s' = suspended s
   /\ calls s' = calls s ++ [Open (uri (input item))
                                  {| start := refreshed; end_ := refreshed |}]
   /\ untouched_outside s s')
  /\ step h (RunCommand "references-view.refind" [Item item]) s
     = _reRunHistoryItem h item s
  /\ reruns h item s (step h (RunCommand "references-view.refind" (Item item :: args)) s)
  /\ match JsMap.values (cache s) with
     | [] => step h (RunCommand "references-view.refresh" args) s = s
     | oldest :: _ =>
         reruns h oldest s (step h (RunCommand "references-view.refresh" args) s)
     end
  /\ reruns h' picked (without k s2) (step h' (Settle k (Picked (Some n))) s2).
Proof.
  intros K E s' refreshed.
  split; [unfold untouched_outside; repeat split|].
  split; [reflexivity|].
  split; [apply reRun_reruns|].
  split.
  - change (step h (RunCommand "references-view.refresh" args) s)
      with (match JsMap.values (cache s) with
            | item :: _ => _reRunHistoryItem h item s
            | [] => s
            end).
    destruct (JsMap.values (cache s)); [reflexivity|apply reRun_reruns].
  - rewrite (pick_reruns h' k n s2 K E). apply reRun_reruns.
Qed.

Lemma activation_shows_history_item_witness :
  let s2 := step host0 (RunCommand "references-view.pickFromHistory" []) shownA in
  nth_error (suspended s2) 0 = Some (AwaitQuickPick [itemA])
  /\ nth_error [itemA] 0 = Some itemA
  /\ (let s' := step host1 (Activate itemA) shownA in
      let refreshed := {| line := 13; character := 4 |} in
      (s' = showHistoryItem host1 itemA shownA
       /\ cache s' = cache shownA
       /\ _history s' = _history shownA
       /\ suspended s' = suspended shownA
       /\ calls s' = calls shownA
                     ++ [Open "fileA" {| start := refreshed; end_ := refreshed |}]
       /\ untouched_outside shownA s')
      /\ step host1 (RunCommand "references-view.refind" [Item itemA]) shownA
         = _reRunHistoryItem host1 itemA shownA
      /\ reruns host1 itemA shownA
           (step host1 (RunCommand "references-view.refind" [Item itemA]) shownA)
      /\ reruns host1 itemA shownA
           (step host1 (RunCommand "references-view.refresh" []) shownA)
      /\ reruns host1 itemA (without 0 s2)
           (step host1 (Settle 0 (Picked (Some 0))) s2)).
Proof.
  cbv zeta. split; [reflexivity|]. split; [reflexivity|].
  apply (@activation_shows_history_item host1 host1 itemA itemA [] shownA
           (step host0 (RunCommand "references-view.pickFromHistory" []) shownA)
           0 0 [itemA]);
    reflexivity.
Defined.

(** C7. When the anchor of a history item gives no position, the re-run
    action hands [setInput] the input [input.with(p)] and the
    show-history-item action asks the host to open the document at [p],
    where [p] is the position stored in the item's input. *)
Theorem reanchoring_falls_back_to_stored_position
    (h : Host) (item : HistoryItem) (s : State) :
  guessedTrackedPosition h (anchor item) = None ->
  let p := position (input item) in
  _reRunHistoryItem h item s
  = setInput (input_with h (input item) p)
      (set_inputs (JsMap.delete (key item) (cache s)) s)
  /\ suspended (step h (RunCommand "references-view.refind" [Item item]) s)
     = suspended s ++ [AwaitValid (input_with h (input item) p)]
  /\ calls (step h (RunCommand "_references-view.showHistoryItem" [Item item]) s)
     = calls s ++ [Open (uri (input item)) {| start := p; end_ := p |}].
Proof.
  intros G p. unfold p.
  split; [|split].
  - unfold _reRunHistoryItem. now rewrite G.
  - change (step h (RunCommand "references-view.refind" [Item item]) s)
      with (_reRunHistoryItem h item s).
    unfold _reRunHistoryItem. now rewrite G.
  - change (step h (RunCommand "_references-view.showHistoryItem" [Item item]) s)
      with (showHistoryItem h item s).
    unfold showHistoryItem. now rewrite G.
Qed.

Lemma reanchoring_falls_back_to_stored_position_witness :
  guessedTrackedPosition host0 (anchor itemA) = None
  /\ (_reRunHistoryItem host0 itemA shownA
      = setInput (input_with host0 inputA {| line := 10; character := 4 |})
          (set_inputs (JsMap.delete (key itemA) (cache shownA)) shownA)
      /\ suspended (step host0 (RunCommand "references-view.refind" [Item itemA]) shownA)
         = [AwaitValid (input_with host0 inputA {| line := 10; character := 4 |})]
      /\ calls (step host0
                  (RunCommand "_references-view.showHistoryItem" [Item itemA]) shownA)
         = [Focus; Open "fileA" {| start := {| line := 10; character := 4 |};
                                   end_ := {| line := 10; character := 4 |} |}]).
Proof.
  split; [reflexivity|].
  apply (@reanchoring_falls_back_to_stored_position host0 itemA shownA).
  reflexivity.
Defined.

(** ** The delegate *)

Lemma delegate_method_throws m d :
  (delegate_method m d = Throws "MISSING provider" <-> dlg_provider d = None)
  /\ (forall p, dlg_provider d = Some p -> delegate_method m d = AwaitsThenCalls p m).
Proof.
  unfold delegate_method, _assertProvider. split; [split|].
  - destruct (dlg_provider d); [discriminate|reflexivity].
  - now intros ->.
  - now intros p ->.
Qed.

(** C9. The promise that [setInput] handed to [update] is rejected: after
    the event the delegate holds no promise and the error is in the console
    log; the state is otherwise the one in which the waiting methods are
    simply gone, so nothing reached a caller.  And each of [getTreeItem],
    [getChildren] and [getParent] throws the missing-provider error exactly
    when the delegate holds no promise; when it holds one, the method goes
    on to await it. *)
Theorem rejected_provider_is_unset_and_logged
    (h : Host) (s : State) (k : nat) (i : SymbolTreeInput) (n : nat) (err : Error)
    (d : TreeDataProviderDelegate) :
  nth_error (suspended s) k = Some (AwaitModel i n) ->
  let s' := step h (Settle k (Rejected err)) s in
  (dlg_provider (_provider s') = None
   /\ calls s' = calls s ++ [ConsoleError err]
   /\ s' = update_catch err (without k s))
  /\ (TreeDataProviderDelegate_getTreeItem d = Throws "MISSING provider"
      <-> dlg_provider d = None)
  /\ (TreeDataProviderDelegate_getChildren d = Throws "MISSING provider"
      <-> dlg_provider d = None)
  /\ (TreeDataProviderDelegate_getParent d = Throws "MISSING provider"
      <-> dlg_provider d = None)
  /\ (forall p, dlg_provider d = Some p ->
        TreeDataProviderDelegate_getTreeItem d = AwaitsThenCalls p GetTreeItem
        /\ TreeDataProviderDelegate_getChildren d = AwaitsThenCalls p GetChildren
        /\ TreeDataProviderDelegate_getParent d = AwaitsThenCalls p GetParent).
Proof.
  intros K s'.
  assert (R : s' = update_catch err (without k s))
    by now apply rejected_resolution with i n.
  split; [rewrite R; repeat split|].
  split; [apply delegate_method_throws|].
  split; [apply delegate_method_throws|].
  split; [apply delegate_method_throws|].
  intros p E. repeat split; now apply delegate_method_throws.
Qed.

Lemma rejected_provider_is_unset_and_logged_witness :
  nth_error (suspended resolvingA) 0 = Some (AwaitModel inputA 0)
  /\ let s' := step host0 (Settle 0 (Rejected "boom")) resolvingA in
     let d := _provider s' in
     (dlg_provider d = None
      /\ calls s' = [Focus; ConsoleError "boom"]
      /\ s' = update_catch "boom" (without 0 resolvingA))
     /\ (TreeDataProviderDelegate_getTreeItem d = Throws "MISSING provider"
         <-> dlg_provider d = None)
     /\ (TreeDataProviderDelegate_getChildren d = Throws "MISSING provider"
         <-> dlg_provider d = None)
     /\ (TreeDataProviderDelegate_getParent d = Throws "MISSING provider"
         <-> dlg_provider d = None)
     /\ (forall p, dlg_provider d = Some p ->
           TreeDataProviderDelegate_getTreeItem d = AwaitsThenCalls p GetTreeItem
           /\ TreeDataProviderDelegate_getChildren d = AwaitsThenCalls p GetChildren
           /\ TreeDataProviderDelegate_getParent d = AwaitsThenCalls p GetParent).
Proof.
  split; [reflexivity|].
  apply (@rejected_provider_is_unset_and_logged
           host0 resolvingA 0 inputA 0 "boom"
           (_provider (step host0 (Settle 0 (Rejected "boom")) resolvingA))).
  reflexivity.
Defined.

(** ** The promise behind the delegate and the current input *)

Lemma benign_refl s : benign s s.
Proof. repeat split; auto. Qed.

Lemma benign_trans a b c : benign a b -> benign b c -> benign a c.
Proof.
  intros (S1 & N1 & P1) (S2 & N2 & P2). repeat split.
  - auto.
  - lia.
  - apply P2 in H. destruct H as [H _]. now apply P1 in H.
  - pose proof (P2 _ H) as [H' E]. apply P1 in H'. destruct H' as [_ E'].
    congruence.
Qed.

Lemma benign_keeps s s' :
  benign s s' -> promise_follows_input s -> promise_follows_input s'.
Proof.
  intros (S & N & P) I i n A. apply S, I in A. destruct A as [L F].
  split; [lia|]. intros Q. apply P in Q. destruct Q as [Q E].
  rewrite E. now apply F.
Qed.

Lemma In_snoc_AwaitModel i n l c :
  In (AwaitModel i n) (l ++ [c]) ->
  (forall j m, c <> AwaitModel j m) -> In (AwaitModel i n) l.
Proof.
  intros I N. apply in_app_or in I. destruct I as [I|[E|[]]]; [exact I|].
  now apply N in E.
Qed.

Ltac benign_by_computation :=
  split;
  [ intros ? ? I; simpl in I;
    repeat (apply In_snoc_AwaitModel in I; [|discriminate]); exact I
  | split;
    [ simpl; lia
    | intros ? Q; simpl in Q |- *;
      first [split; [exact Q|reflexivity] | discriminate Q] ] ].

Lemma benign_without k s : benign s (without k s).
Proof.
  repeat split; simpl; auto. intros i n I.
  rewrite <- (firstn_skipn k (suspended s)).
  apply in_app_or in I. apply in_or_app. destruct I as [I|I]; [now left|right].
  rewrite <- (firstn_skipn 1 (skipn k (suspended s))), skipn_skipn.
  apply in_or_app. now right.
Qed.

Lemma benign_clearInput s : benign s (clearInput s).
Proof.
  unfold clearInput, dispose_session.
  destruct (_sessionDisposable s); benign_by_computation.
Qed.

Lemma benign_update_then p v s : benign s (update_then p v s).
Proof.
  unfold update_then. destruct (is_promise _ p); [|apply benign_refl].
  benign_by_computation.
Qed.

Lemma benign_update_catch err s : benign s (update_catch err s).
Proof. unfold update_catch. benign_by_computation. Qed.

Lemma benign_setInput i s : benign s (setInput i s).
Proof. unfold setInput. benign_by_computation. Qed.

Lemma benign_setInput_finish i m s : benign s (setInput_finish i m s).
Proof. unfold setInput_finish. benign_by_computation. Qed.

Lemma benign_setInput_resolved h i m s : benign s (setInput_resolved h i m s).
Proof.
  unfold setInput_resolved.
  destruct (negb (is_input (_input s) i)); [apply benign_refl|].
  destruct (empty m); [apply benign_clearInput|].
  destruct (navigation m) as [nav|];
    [destruct (nearest nav (uri i) (position i));
       [destruct (tree_visible h)|]|];
    unfold setInput_finish, TreeInputHistory_add; benign_by_computation.
Qed.

Lemma benign_add_resume h i doc s : benign s (add_resume h i doc s).
Proof. unfold add_resume. benign_by_computation. Qed.

Lemma benign_reRun h item s : benign s (_reRunHistoryItem h item s).
Proof. unfold _reRunHistoryItem, setInput. benign_by_computation. Qed.

Lemma benign_clear s : benign s (TreeInputHistory_clear s).
Proof.
  unfold TreeInputHistory_clear, history_fire. simpl.
  destruct (dlg_sessionDispoables (_provider s)) as [[|]|]; benign_by_computation.
Qed.

Lemma benign_executeCommand h name args s : benign s (executeCommand h name args s).
Proof.
  unfold executeCommand.
  destruct (String.eqb name "references-view.clear"); [apply benign_clearInput|].
  destruct (String.eqb name "references-view.clearHistory").
  { eapply benign_trans; [apply benign_clear|apply benign_clearInput]. }
  destruct (String.eqb name "references-view.refind").
  { destruct args as [|[item|] args];
      [apply benign_refl|apply benign_reRun|apply benign_refl]. }
  destruct (String.eqb name "references-view.refresh").
  { destruct (JsMap.values _); [apply benign_refl|apply benign_reRun]. }
  destruct (String.eqb name "_references-view.showHistoryItem").
  { destruct args as [|[item|] args]; try apply benign_refl.
    unfold showHistoryItem. benign_by_computation. }
  destruct (String.eqb name "references-view.pickFromHistory");
    [|apply benign_refl].
  benign_by_computation.
Qed.

Lemma is_input_refl i : is_input (Some i) i = true.
Proof. apply Nat.eqb_refl. Qed.

Lemma setInput_validated_keeps i b s :
  promise_follows_input s -> promise_follows_input (setInput_validated i b s).
Proof.
  intros I. unfold setInput_validated. destruct b; simpl negb; cbv iota;
    [|exact (benign_keeps (benign_clearInput s) I)].
  unfold dispose_session. simpl.
  assert (G : forall j n, In (AwaitModel j n) (suspended s ++ [AwaitModel i (serial s)]) ->
                n < S (serial s)
                /\ (Nat.eqb (serial s) n = true -> is_input (Some i) j = true)).
  { intros j n A. apply in_app_or in A. destruct A as [A|[E|[]]].
    - apply I in A. destruct A as [L _]. split; [lia|].
      intros Q. apply Nat.eqb_eq in Q. lia.
    - inversion E; subst. split; [lia|]. intros _. apply is_input_refl. }
  destruct (_sessionDisposable s); exact G.
Qed.

Lemma step_keeps h e s :
  promise_follows_input s -> promise_follows_input (step h e s).
Proof.
  intros I. destruct e as [i| |name args|item|k a]; simpl step.
  - exact (benign_keeps (benign_setInput i s) I).
  - exact (benign_keeps (benign_clearInput s) I).
  - exact (benign_keeps (benign_executeCommand h name args s) I).
  - exact (benign_keeps (benign_executeCommand h _ _ s) I).
  - destruct (nth_error (suspended s) k) as [c|]; [|exact I].
    pose proof (benign_keeps (benign_without k s) I) as W.
    destruct c, a as [b|m'|err|doc| |[pick|]]; simpl resume;
      first
        [ exact I
        | exact W
        | now apply setInput_validated_keeps
        | refine (benign_keeps _ W);
          first
            [ apply benign_update_catch
            | apply benign_setInput_finish
            | apply benign_add_resume
            | apply benign_update_then
            | eapply benign_trans;
              [apply benign_setInput_resolved|apply benign_update_then] ]
        | idtac ].
    destruct (nth_error entries pick); [|exact I].
    exact (benign_keeps (benign_reRun _ _ _) W).
Qed.

Lemma run_keeps tr s :
  promise_follows_input s -> promise_follows_input (run tr s).
Proof.
  revert s. induction tr as [|[h e] r IH]; intros s I; [exact I|].
  apply IH. now apply step_keeps.
Qed.

Lemma initial_follows title0 : promise_follows_input (initial title0).
Proof. intros i n []. Qed.

(** In every state the system can reach, the model of an input that is no
    longer current arrives without effect: the waiting method is taken off
    the list and nothing else changes. *)
Lemma superseded_fulfilled_is_dropped_reachable
    (title0 : string) (tr : list (Host * Event))
    (h : Host) (k : nat) (i : SymbolTreeInput) (n : nat) (m : Model) :
  let s := run tr (initial title0) in
  nth_error (suspended s) k = Some (AwaitModel i n) ->
  is_input (_input s) i = false ->
  step h (Settle k (Fulfilled m)) s = without k s.
Proof.
  intros s K C. apply superseded_fulfilled_is_dropped with i n; trivial.
  pose proof (run_keeps tr (@initial_follows title0)) as I. fold s in I.
  destruct (I i n (nth_error_In _ _ K)) as [_ F].
  destruct (is_promise (dlg_provider (_provider s)) (ThenOfModel n)); [|reflexivity].
  rewrite F in C by reflexivity. discriminate.
Qed.

(** ** Every event is made of pieces *)

Lemma pieces_one a b : piece a b -> pieces a b.
Proof. intros P. eapply pieces_cons; [exact P|apply pieces_nil]. Qed.

Lemma pieces_app a b c : pieces a b -> pieces b c -> pieces a c.
Proof.
  induction 1 as [|s1 s2 s3 P _ IH]; [trivial|].
  intros Q. eapply pieces_cons; [exact P|now apply IH].
Qed.

Lemma pieces_reRun h item s : pieces s (_reRunHistoryItem h item s).
Proof.
  unfold _reRunHistoryItem, setInput.
  eapply pieces_cons; [apply piece_delete|]. apply pieces_one, piece_suspend.
Qed.

Lemma pieces_executeCommand h name args s : pieces s (executeCommand h name args s).
Proof.
  unfold executeCommand.
  destruct (String.eqb name "references-view.clear");
    [apply pieces_one, piece_clearInput|].
  destruct (String.eqb name "references-view.clearHistory").
  { eapply pieces_cons; [apply piece_clear|]. apply pieces_one, piece_clearInput. }
  destruct (String.eqb name "references-view.refind").
  { destruct args as [|[item|] args];
      [apply pieces_nil|apply pieces_reRun|apply pieces_nil]. }
  destruct (String.eqb name "references-view.refresh").
  { destruct (JsMap.values _); [apply pieces_nil|apply pieces_reRun]. }
  destruct (String.eqb name "_references-view.showHistoryItem").
  { destruct args as [|[item|] args]; try apply pieces_nil.
    unfold showHistoryItem. apply pieces_one, piece_call. }
  destruct (String.eqb name "references-view.pickFromHistory");
    [|apply pieces_nil].
  eapply pieces_cons; [apply piece_call|]. apply pieces_one, piece_suspend.
Qed.

Lemma pieces_resume h c a s s' : resume h c a s = Some s' -> pieces s s'.
Proof.
  destruct c, a as [b|m'|err|doc| |[pick|]]; simpl resume; try discriminate;
    intros R; inversion R; subst; clear R; try apply pieces_nil.
  - destruct b; [apply pieces_one, piece_validated|].
    apply pieces_one. change (setInput_validated i false s) with (clearInput s).
    apply piece_clearInput.
  - eapply pieces_cons; [apply piece_resolved|]. apply pieces_one, piece_then.
  - apply pieces_one, piece_catch.
  - apply pieces_one, piece_finish.
  - apply pieces_one, piece_add.
  - apply pieces_one, piece_then.
  - destruct (nth_error entries pick); [|discriminate].
    inversion H0; subst. apply pieces_reRun.
Qed.

Lemma pieces_step h e s : pieces s (step h e s).
Proof.
  destruct e as [i| |name args|item|k a]; simpl step.
  - apply pieces_one, piece_suspend.
  - apply pieces_one, piece_clearInput.
  - apply pieces_executeCommand.
  - apply pieces_executeCommand.
  - destruct (nth_error (suspended s) k) as [c|]; [|apply pieces_nil].
    destruct (resume h c a (without k s)) as [s'|] eqn:R; [|apply pieces_nil].
    eapply pieces_cons; [apply piece_without|]. exact (pieces_resume _ _ _ _ R).
Qed.

Lemma pieces_run tr s : pieces s (run tr s).
Proof.
  revert s. induction tr as [|[h e] r IH]; intros s; [apply pieces_nil|].
  simpl. eapply pieces_app; [apply pieces_step|apply IH].
Qed.

(** What every piece keeps, every run keeps. *)
Lemma kept_by_run (I : State -> Prop) :
  (forall s s', piece s s' -> I s -> I s') ->
  forall tr s, I s -> I (run tr s).
Proof.
  intros K tr s. generalize (pieces_run tr s). generalize (run tr s).
  intros s' P. induction P as [|s1 s2 s3 P _ IH]; [trivial|].
  intros H. apply IH. eapply K; eassumption.
Qed.

Ltac unfold_pieces :=
  unfold setInput_validated, setInput_resolved, clearInput, setInput_finish,
    TreeInputHistory_clear, history_fire, TreeInputHistory_add, add_resume,
    update_then, update_catch, TreeDataProviderDelegate_update,
    dispose_session, without, suspend, call, set_inputs, set_ctxHasHistory in *.

Ltac split_cases :=
  repeat (simpl in *;
          match goal with
          | |- context [match ?x with _ => _ end] => destruct x eqn:?
          | |- context [if ?x then _ else _] => destruct x eqn:?
          end);
  simpl in *.

(** ** The current input and the "has result" flag *)

Lemma result_follows_input_piece s s' :
  piece s s' -> result_follows_input s -> result_follows_input s'.
Proof.
  intros P. destruct P; unfold result_follows_input; unfold_pieces;
    split_cases; intuition congruence.
Qed.

(** X1. After any run of the system, "has result" is published as true
    exactly when there is a current input; with a current input the "is
    active" flag is true and the input source is that input's context
    value; without one the input source is reset. *)
Theorem has_result_iff_current_input (title0 : string) (tr : list (Host * Event)) :
  let s := run tr (initial title0) in
  (_ctxHasResult s = Some true <-> _input s <> None)
  /\ (forall i, _input s = Some i ->
        _ctxIsActive s = Some true /\ _ctxInputSource s = Some (contextValue i))
  /\ (_input s = None -> _ctxInputSource s = None).
Proof.
  intros s.
  assert (I : result_follows_input s).
  { apply kept_by_run; [apply result_follows_input_piece|].
    split; [discriminate|reflexivity]. }
  unfold result_follows_input in I. destruct (_input s) as [j|].
  - destruct I as (R & A & C). split; [|split].
    + split; [discriminate|trivial].
    + intros i E. inversion E; subst. split; assumption.
    + discriminate.
  - destruct I as (R & C). split; [|split].
    + split; [intros E; now apply R in E|intros N; now elim N].
    + discriminate.
    + trivial.
Qed.

Lemma is_active_piece s s' :
  piece s s' -> _ctxIsActive s' = _ctxIsActive s \/ _ctxIsActive s' = Some true.
Proof.
  intros P. destruct P; unfold_pieces; split_cases; auto.
Qed.

(** X2. No event withdraws the "is active" flag: after any run from any
    state the flag is what it was or it is true. *)
Theorem is_active_never_withdrawn (tr : list (Host * Event)) (s : State) :
  _ctxIsActive (run tr s) = _ctxIsActive s \/ _ctxIsActive (run tr s) = Some true.
Proof.
  apply (kept_by_run
           (fun s' => _ctxIsActive s' = _ctxIsActive s \/ _ctxIsActive s' = Some true));
    [|now left].
  intros s1 s2 P [E|E]; destruct (is_active_piece P) as [F|F]; auto.
  left. congruence. right. congruence.
Qed.

(** ** The "has history" flag, the half that is kept *)

Lemma history_kept_or_changed s s' :
  piece s s' ->
  _history s' = _history s
  \/ (exists h i doc, s' = add_resume h i doc s)
  \/ (exists k, s' = set_inputs (JsMap.delete k (_inputs (_history s))) s)
  \/ s' = TreeInputHistory_clear s.
Proof.
  intros P. destruct P; try (left; unfold_pieces; split_cases; reflexivity).
  - right. left. eauto.
  - right. right. left. eauto.
  - right. right. right. reflexivity.
Qed.

Lemma flag_covers_cache_piece s s' :
  piece s s' -> flag_covers_cache s -> flag_covers_cache s'.
Proof.
  intros P I. unfold flag_covers_cache, TreeInputHistory_size in *.
  destruct (history_kept_or_changed P) as [E|[(h & i & doc & E)|[(k & E)|E]]].
  - now rewrite E.
  - subst s'. reflexivity.
  - subst s'. simpl. intros L. apply I.
    pose proof (filter_length_le (fun e => negb (String.eqb (fst e) k))
                  (_inputs (_history s))).
    unfold JsMap.size, JsMap.delete in *.
    eapply Nat.lt_le_trans; [exact L|exact H].
  - subst s'. intros L.
    assert (E0 : cache (TreeInputHistory_clear s) = []) by apply cache_clear.
    unfold cache in E0. rewrite E0 in L. inversion L.
Qed.

(** X3. After any run of the system, a history cache that holds entries
    has the "has history" flag published as true. *)
Theorem nonempty_history_has_flag (title0 : string) (tr : list (Host * Event)) :
  let s := run tr (initial title0) in
  0 < TreeInputHistory_size s -> _ctxHasHistory (_history s) = Some true.
Proof.
  apply (kept_by_run flag_covers_cache); [apply flag_covers_cache_piece|].
  intros L. vm_compute in L. inversion L.
Qed.

Lemma nonempty_history_has_flag_witness :
  let s := run trace_shownA (initial "References") in
  0 < TreeInputHistory_size s /\ _ctxHasHistory (_history s) = Some true.
Proof.
  cbv zeta. split; [vm_compute; constructor|].
  apply (nonempty_history_has_flag "References" trace_shownA).
  vm_compute. constructor.
Defined.

(** ** When the delegate holds no promise *)

Lemma logged_snoc (l : list HostCall) c :
  (exists err, In (ConsoleError err) l) -> exists err, In (ConsoleError err) (l ++ [c]).
Proof. intros [e I]. exists e. apply in_or_app. now left. Qed.

Lemma unset_is_explained_piece s s' :
  piece s s' -> unset_is_explained s -> unset_is_explained s'.
Proof.
  intros P. destruct P; unfold unset_is_explained; unfold_pieces; split_cases;
    intros (A & B & C); (split; [|split]); intros N;
    try discriminate N; try (now elim N); try lia;
    try (now apply A); try (now apply B); try (now apply C);
    try (destruct (A N) as [Z|L]; [now left|right; now apply logged_snoc]).
  all: try (right; eexists; apply in_or_app; right; left; reflexivity).
  all: try (apply B; congruence).
  all: try (apply Nat.lt_lt_succ_r, C; congruence).
  - apply B. intros E. rewrite E in *. discriminate.
  - destruct (A N) as [Z|L]; [|right; exact L].
    assert (0 < dlg_onDidChange (_provider s)) by (apply C; congruence). lia.
Qed.

(** X4. After any run of the system, the delegate is without a promise, so
    that its tree operations throw, only if no [update] has happened yet
    or a rejected resolution has been logged to the console. *)
Theorem provider_unset_only_initially_or_after_rejection
    (title0 : string) (tr : list (Host * Event)) (m : Method) :
  let s := run tr (initial title0) in
  delegate_method m (_provider s) = Throws "MISSING provider" ->
  dlg_onDidChange (_provider s) = 0 \/ exists err, In (ConsoleError err) (calls s).
Proof.
  intros s T.
  assert (I : unset_is_explained s).
  { apply kept_by_run; [apply unset_is_explained_piece|].
    split; [now left|]. split; intros N; now elim N. }
  apply I. now apply delegate_method_throws in T.
Qed.

Lemma provider_unset_only_initially_or_after_rejection_witness :
  let s := run (trace_resolvingAB ++ [(host0, Settle 0 (Rejected "boom"))])
             (initial "References") in
  delegate_method GetChildren (_provider s) = Throws "MISSING provider"
  /\ (dlg_onDidChange (_provider s) = 0
      \/ exists err, In (ConsoleError err) (calls s)).
Proof.
  cbv zeta. split; [reflexivity|].
  apply (provider_unset_only_initially_or_after_rejection "References"
           (trace_resolvingAB ++ [(host0, Settle 0 (Rejected "boom"))]) GetChildren).
  reflexivity.
Defined.

(** ** What leaves the history alone *)

Lemma history_setInput_validated i b s : _history (setInput_validated i b s) = _history s.
Proof. unfold_pieces; split_cases; reflexivity. Qed.

Lemma history_setInput_resolved h i m s : _history (setInput_resolved h i m s) = _history s.
Proof. unfold_pieces; split_cases; reflexivity. Qed.

Lemma history_update_then p v s : _history (update_then p v s) = _history s.
Proof. unfold_pieces; split_cases; reflexivity. Qed.

Lemma history_resume h c a s s' :
  resume h c a s = Some s' ->
  match a with Opened _ | Picked _ => True | _ => _history s' = _history s end.
Proof.
  destruct c, a as [b|m'|err|doc| |[pick|]]; simpl resume; try discriminate;
    trivial; intros R; inversion R; subst; clear R; try reflexivity.
  - apply history_setInput_validated.
  - now rewrite history_update_then, history_setInput_resolved.
  - apply history_update_then.
Qed.

Lemma history_settle h k a s :
  match a with Opened _ | Picked _ => True | _ => _history (step h (Settle k a) s) = _history s end.
Proof.
  pose proof (fun c s' => @history_resume h c a (without k s) s') as R.
  simpl step. destruct (nth_error (suspended s) k) as [c|];
    [destruct (resume h c a (without k s)) as [s'|] eqn:E|];
    destruct a; trivial; exact (R _ _ E).
Qed.

(** X5. The history (its cache and its flag) is changed by nothing but a
    landing add, a pick from the quick pick and the commands that clear or
    re-run.  A call of [setInput] or [clearInput], the commands
    [references-view.clear], [_references-view.showHistoryItem] and
    [references-view.pickFromHistory], the activation of an item, and the
    answers to validation, resolution and reveal all leave it as it is. *)
Theorem history_left_alone (h : Host) (s : State) :
  (forall i, _history (step h (CallSetInput i) s) = _history s)
  /\ _history (step h CallClearInput s) = _history s
  /\ (forall args,
        _history (step h (RunCommand "references-view.clear" args) s) = _history s
        /\ _history (step h (RunCommand "_references-view.showHistoryItem" args) s)
           = _history s
        /\ _history (step h (RunCommand "references-view.pickFromHistory" args) s)
           = _history s)
  /\ (forall item, _history (step h (Activate item) s) = _history s)
  /\ (forall k b, _history (step h (Settle k (Valid b)) s) = _history s)
  /\ (forall k m, _history (step h (Settle k (Fulfilled m)) s) = _history s)
  /\ (forall k err, _history (step h (Settle k (Rejected err)) s) = _history s)
  /\ (forall k, _history (step h (Settle k Done) s) = _history s).
Proof.
  split; [reflexivity|]. split; [apply clearInput_history|].
  split.
  { intros args. split; [apply clearInput_history|]. split; [|reflexivity].
    destruct args as [|[item|] args]; reflexivity. }
  split; [reflexivity|].
  split; [intros k b; apply (history_settle h k (Valid b) s)|].
  split; [intros k m; apply (history_settle h k (Fulfilled m) s)|].
  split; [intros k err; apply (history_settle h k (Rejected err) s)|].
  intros k; apply (history_settle h k Done s).
Qed.

(** ** The keys of the cache *)

Lemma keyed_run (title0 : string) (tr : list (Host * Event)) :
  keyed_by_own_key (cache (run tr (initial title0))).
Proof.
  rewrite cache_run. set (ops := journal tr (initial title0)).
  destruct (cache_inv_ops (rev ops) (initial title0) eq_refl) as [M _].
  rewrite rev_involutive in M. intros k item I. apply M in I.
  destruct I as [t T]. now apply inserted_rev_bound in T.
Qed.

Lemma delete_missing (V : Type) k (m : JsMap.t V) :
  ~ In k (JsMap.keys m) -> JsMap.delete k m = m.
Proof.
  unfold JsMap.delete, JsMap.keys.
  induction m as [|[k' v'] r IH]; simpl; [reflexivity|].
  intros N. destruct (String.eqb_spec k' k) as [E|E]; simpl.
  - exfalso. apply N. now left.
  - f_equal. apply IH. tauto.
Qed.

Lemma delete_present (V : Type) k (m : JsMap.t V) :
  NoDup (JsMap.keys m) -> In k (JsMap.keys m) ->
  S (JsMap.size (JsMap.delete k m)) = JsMap.size m.
Proof.
  unfold JsMap.delete, JsMap.keys, JsMap.size.
  induction m as [|[k' v'] r IH]; simpl; [intros _ []|].
  intros N I. inversion N as [|? ? Nin Nr]; subst.
  destruct (String.eqb_spec k' k) as [E|E]; simpl.
  - subst k'. f_equal.
    change (filter (fun e => negb (String.eqb (fst e) k)) r) with (JsMap.delete k r).
    now rewrite delete_missing.
  - f_equal. apply IH; [assumption|]. destruct I; [congruence|assumption].
Qed.

Lemma has_key_In k (l : list string) :
  existsb (String.eqb k) l = true <-> In k l.
Proof.
  rewrite existsb_exists. split.
  - intros [x [I E]]. apply String.eqb_eq in E. now subst.
  - intros I. exists k. split; [exact I|apply String.eqb_refl].
Qed.

(** X6. After any run of the system, a landing add makes the cache one
    entry larger when the key of its item is new and leaves the size as it
    is when the key is already there. *)
Theorem add_grows_only_by_new_keys (title0 : string) (tr : list (Host * Event))
    (h : Host) (i : SymbolTreeInput) (doc : TextDocument) :
  let s := run tr (initial title0) in
  TreeInputHistory_size (add_resume h i doc s)
  = if existsb (String.eqb (key (add_item h i doc))) (JsMap.keys (cache s))
    then TreeInputHistory_size s
    else S (TreeInputHistory_size s).
Proof.
  intros s. unfold TreeInputHistory_size.
  fold (cache (add_resume h i doc s)). fold (cache s).
  rewrite cache_add_resume. unfold JsMap.size at 1. rewrite length_app.
  cbn [List.length]. rewrite Nat.add_1_r.
  destruct (existsb _ _) eqn:E.
  - apply has_key_In in E. apply delete_present; [apply keys_run|exact E].
  - rewrite delete_missing; [reflexivity|].
    intros I. apply has_key_In in I. rewrite I in E. discriminate.
Qed.

Lemma values_delete_keyed k0 (m : JsMap.t HistoryItem) :
  keyed_by_own_key m ->
  JsMap.values (JsMap.delete k0 m)
  = filter (fun x => negb (String.eqb (key x) k0)) (JsMap.values m).
Proof.
  unfold JsMap.values, JsMap.delete.
  induction m as [|[k' v] r IH]; intros K; simpl; [reflexivity|].
  rewrite (K k' v) by now left.
  destruct (negb (String.eqb k' k0)); simpl; rewrite IH; try reflexivity;
    intros k x I; apply K; now right.
Qed.

Lemma keys_of_values (m : JsMap.t HistoryItem) :
  keyed_by_own_key m -> map key (JsMap.values m) = JsMap.keys m.
Proof.
  unfold JsMap.values, JsMap.keys.
  induction m as [|[k' v] r IH]; intros K; simpl; [reflexivity|].
  rewrite (K k' v) by now left. f_equal. apply IH.
  intros k x I. apply K. now right.
Qed.

(** X7. After any run of the system no two items of [getChildren] have the
    same key, and every item is stored in the map under its own key. *)
Theorem history_items_have_distinct_keys (title0 : string) (tr : list (Host * Event)) :
  let s := run tr (initial title0) in
  NoDup (map key (TreeInputHistory_getChildren s))
  /\ (forall k item, In (k, item) (cache s) -> key item = k).
Proof.
  intros s. split; [|apply keyed_run].
  unfold TreeInputHistory_getChildren. fold (cache s).
  rewrite map_rev, keys_of_values by apply keyed_run.
  apply NoDup_rev, keys_run.
Qed.

(** X8. After any run of the system, re-running an item that [getChildren]
    lists removes that item and no other: the list afterwards is the list
    before without the items of that key, in the same order, it is one
    shorter, and it no longer holds the item. *)
Theorem rerun_removes_exactly_the_item (title0 : string) (tr : list (Host * Event))
    (h : Host) (item : HistoryItem) :
  let s := run tr (initial title0) in
  In item (TreeInputHistory_getChildren s) ->
  let s' := _reRunHistoryItem h item s in
  TreeInputHistory_getChildren s'
  = filter (fun x => negb (String.eqb (key x) (key item)))
      (TreeInputHistory_getChildren s)
  /\ S (TreeInputHistory_size s') = TreeInputHistory_size s
  /\ ~ In item (TreeInputHistory_getChildren s').
Proof.
  intros s I s'.
  pose proof (keyed_run title0 tr) as K. pose proof (keys_run title0 tr) as N.
  fold s in K, N.
  assert (G : TreeInputHistory_getChildren s'
              = filter (fun x => negb (String.eqb (key x) (key item)))
                  (TreeInputHistory_getChildren s)).
  { unfold TreeInputHistory_getChildren. fold (cache s'). fold (cache s).
    unfold s'. rewrite cache_reRun, values_delete_keyed by exact K.
    symmetry. apply filter_rev. }
  split; [exact G|]. split.
  - unfold TreeInputHistory_size. fold (cache s'). fold (cache s).
    unfold s'. rewrite cache_reRun. apply delete_present; [exact N|].
    rewrite <- keys_of_values by exact K. apply in_map.
    unfold TreeInputHistory_getChildren in I. now apply in_rev in I.
  - rewrite G. intros J. apply filter_In in J. destruct J as [_ J].
    now rewrite String.eqb_refl in J.
Qed.

Lemma rerun_removes_exactly_the_item_witness :
  let s := run trace_shownA (initial "References") in
  In itemA (TreeInputHistory_getChildren s)
  /\ let s' := _reRunHistoryItem host1 itemA s in
     TreeInputHistory_getChildren s'
     = filter (fun x => negb (String.eqb (key x) (key itemA)))
         (TreeInputHistory_getChildren s)
     /\ S (TreeInputHistory_size s') = TreeInputHistory_size s
     /\ ~ In itemA (TreeInputHistory_getChildren s').
Proof.
  cbv zeta. split; [left; reflexivity|].
  apply (rerun_removes_exactly_the_item "References" trace_shownA host1 itemA).
  left. reflexivity.
Defined.

(** X9. Re-running an item whose key is not in the cache removes nothing:
    the history is as before, and the search is started all the same, with
    the item's input at the position refreshed from the anchor or else at
    its stored position. *)
Theorem rerun_of_absent_item_removes_nothing
    (h : Host) (item : HistoryItem) (s : State) :
  ~ In (key item) (JsMap.keys (cache s)) ->
  let s' := _reRunHistoryItem h item s in
  _history s' = _history s
  /\ suspended s'
     = suspended s
       ++ [AwaitValid (input_with h (input item)
                         (guessedTrackedPosition h (anchor item)
                          ?? position (input item)))].
Proof.
  intros N s'. split; [|reflexivity].
  unfold s', _reRunHistoryItem, setInput, suspend, set_inputs. simpl.
  fold (cache s). rewrite delete_missing by exact N.
  unfold cache. destruct (_history s); reflexivity.
Qed.

Lemma rerun_of_absent_item_removes_nothing_witness :
  ~ In (key itemB) (JsMap.keys (cache shownA))
  /\ let s' := _reRunHistoryItem host1 itemB shownA in
     _history s' = _history shownA
     /\ suspended s'
        = [AwaitValid (input_with host1 inputB {| line := 5; character := 1 |})].
Proof.
  assert (N : ~ In (key itemB) (JsMap.keys (cache shownA))).
  { intros [E|[]]. discriminate E. }
  split; [exact N|].
  exact (@rerun_of_absent_item_removes_nothing host1 itemB shownA N).
Defined.

(** ** The item of an add *)

(** X10. The item that [add] builds never lacks a word or a key.  When the
    document has a word at the position under the default pattern, the
    word is its text and the key starts from its start; otherwise the same
    with the run of non-blanks at the position; and when there is neither,
    the word is the placeholder and the key starts from the position of
    the input.  The anchor is taken at the position of the input and the
    item holds the input. *)
Theorem add_item_word_and_key (h : Host) (i : SymbolTreeInput) (doc : TextDocument) :
  let item := add_item h i doc in
  match getWordRangeAtPosition doc (position i) None,
        getWordRangeAtPosition doc (position i) (Some "[^\s]+") with
  | Some r, _ | None, Some r =>
      word item = getText doc r
      /\ key item = JSON_stringify h (start r) (uri i) (title i)
  | None, None =>
      word item = "???"
      /\ key item = JSON_stringify h (position i) (uri i) (title i)
  end
  /\ anchor item = {| anchor_doc := doc; anchor_position := position i |}
  /\ input item = i
  /\ description item
     = (asRelativePath h (uri i) ++ " • " ++ toLocaleLowerCase h (title i))%string.
Proof.
  intros item. unfold item, add_item, word_range, HistoryItem_new.
  destruct (getWordRangeAtPosition doc (position i) None) as [r|];
    [|destruct (getWordRangeAtPosition doc (position i) (Some "[^\s]+")) as [r|]];
    repeat split.
Qed.

(** ** The commands *)

Lemma clearInput_message s :
  tree_message (clearInput s)
  = Some (if Nat.eqb (TreeInputHistory_size s) 0
          then "No results."
          else "No results. Try running a previous search again:").
Proof. clearInput_field s. Qed.

Lemma clear_lowers_flag s :
  _ctxHasHistory (_history (TreeInputHistory_clear s)) = Some false.
Proof.
  unfold TreeInputHistory_clear, history_fire. simpl.
  destruct (dlg_sessionDispoables (_provider s)) as [[|]|]; reflexivity.
Qed.

(** X11. [references-view.clearHistory] on any state leaves an empty
    history with the flag false and the view as [clearInput] leaves it for
    an empty history: no current input, "has result" false, the default
    title and the message without the hint at previous searches. *)
Theorem clearHistory_leaves_empty_view (h : Host) (args : list Arg) (s : State) :
  let s' := step h (RunCommand "references-view.clearHistory" args) s in
  TreeInputHistory_getChildren s' = []
  /\ TreeInputHistory_size s' = 0
  /\ _ctxHasHistory (_history s') = Some false
  /\ tree_message s' = Some "No results."
  /\ tree_title s' = "References"
  /\ _input s' = None
  /\ _ctxHasResult s' = Some false.
Proof.
  intros s'.
  change s' with (clearInput (TreeInputHistory_clear s)).
  assert (C : cache (TreeInputHistory_clear s) = []) by apply cache_clear.
  assert (Z : TreeInputHistory_size (TreeInputHistory_clear s) = 0).
  { unfold TreeInputHistory_size. fold (cache (TreeInputHistory_clear s)).
    now rewrite C. }
  split.
  { unfold TreeInputHistory_getChildren.
    fold (cache (clearInput (TreeInputHistory_clear s))).
    now rewrite cache_clearInput, C. }
  split.
  { unfold TreeInputHistory_size.
    fold (cache (clearInput (TreeInputHistory_clear s))).
    now rewrite cache_clearInput, C. }
  split.
  { rewrite clearInput_history. apply clear_lowers_flag. }
  split; [now rewrite clearInput_message, Z|].
  rewrite clearInput_title, clearInput_input, clearInput_ctxHasResult.
  repeat split.
Qed.

(** X12. [references-view.refind] and [_references-view.showHistoryItem]
    do nothing unless their first argument is a history item. *)
Theorem commands_ignore_other_arguments (h : Host) (args : list Arg) (s : State) :
  match args with
  | Item _ :: _ => True
  | _ =>
      step h (RunCommand "references-view.refind" args) s = s
      /\ step h (RunCommand "_references-view.showHistoryItem" args) s = s
  end.
Proof. destruct args as [|[item|] args]; repeat split. Qed.

(** X13. [references-view.pickFromHistory] shows the quick pick with the
    word and the description of each item of [getChildren], most recent
    first, and changes nothing else: the history and everything outside
    the waiting methods and the host calls is as it was.  When the user
    picks entry [n] of the list that was shown, that entry is re-run,
    whatever the history has become meanwhile: its key is removed from the
    cache and [setInput] is called with [input.with] of the refreshed
    position.  When the user dismisses the quick pick only the waiting
    method goes. *)
Theorem pickFromHistory_reruns_the_pick
    (h h' : Host) (args : list Arg) (s s2 : State) (k n : nat)
    (entries : list HistoryItem) (item : HistoryItem) :
  nth_error (suspended s2) k = Some (AwaitQuickPick entries) ->
  nth_error entries n = Some item ->
  let s1 := step h (RunCommand "references-view.pickFromHistory" args) s in
  let s3 := step h' (Settle k (Picked None)) s2 in
  (suspended s1 = suspended s ++ [AwaitQuickPick (TreeInputHistory_getChildren s)]
   /\ calls s1
      = calls s ++ [ShowQuickPick (map (fun x => (word x, description x))
                                     (TreeInputHistory_getChildren s))]
   /\ _history s1 = _history s
   /\ untouched_outside s s1)
  /\ step h' (Settle k (Picked (Some n))) s2 = _reRunHistoryItem h' item (without k s2)
  /\ reruns h' item (without k s2) (step h' (Settle k (Picked (Some n))) s2)
  /\ s3 = without k s2
  /\ (untouched_outside s2 s3
      /\ _history s3 = _history s2
      /\ calls s3 = calls s2
      /\ suspended s3 = firstn k (suspended s2) ++ skipn (S k) (suspended s2)).
Proof.
  intros K E s1 s3.
  split; [unfold untouched_outside; repeat split|].
  split; [exact (pick_reruns h' k n s2 K E)|].
  split; [rewrite (pick_reruns h' k n s2 K E); apply reRun_reruns|].
  assert (R : s3 = without k s2).
  { unfold s3, step. now rewrite K. }
  split; [exact R|]. rewrite R. unfold untouched_outside. repeat split.
Qed.

Lemma pickFromHistory_reruns_the_pick_witness :
  let s2 := step host0 (RunCommand "references-view.pickFromHistory" []) shownA in
  let s3 := step host1 (Settle 0 (Picked None)) s2 in
  nth_error (suspended s2) 0 = Some (AwaitQuickPick [itemA])
  /\ nth_error [itemA] 0 = Some itemA
  /\ (suspended s2 = [AwaitQuickPick [itemA]]
      /\ calls s2 = [Focus; ShowQuickPick [("foo", "fileA • references")]]
      /\ _history s2 = _history shownA
      /\ untouched_outside shownA s2)
  /\ step host1 (Settle 0 (Picked (Some 0))) s2
     = _reRunHistoryItem host1 itemA (without 0 s2)
  /\ reruns host1 itemA (without 0 s2) (step host1 (Settle 0 (Picked (Some 0))) s2)
  /\ s3 = without 0 s2
  /\ (untouched_outside s2 s3
      /\ _history s3 = _history s2
      /\ calls s3 = calls s2
      /\ suspended s3 = []).
Proof.
  cbv zeta. split; [reflexivity|]. split; [reflexivity|].
  apply (@pickFromHistory_reruns_the_pick host0 host1 [] shownA
           (step host0 (RunCommand "references-view.pickFromHistory" []) shownA)
           0 0 [itemA] itemA);
    reflexivity.
Defined.

(** ** A valid input and its result *)

(** X14. The validity check of an input succeeds: the input becomes the
    current one, its context value, "is active" and "has result" are
    published, the host is asked once to focus the view, the title is the
    input's, and the session held so far, if any, is disposed.  The status
    message survives exactly when there was a current input of the same
    prototype.  The delegate is given a promise that no one held before,
    loses its subscription and fires one change event; the method then
    waits for the model, and the history is untouched. *)
Theorem valid_input_becomes_current
    (h : Host) (s : State) (k : nat) (i : SymbolTreeInput) :
  nth_error (suspended s) k = Some (AwaitValid i) ->
  let s' := step h (Settle k (Valid true)) s in
  (_input s' = Some i
   /\ tree_title s' = title i
   /\ _ctxInputSource s' = Some (contextValue i)
   /\ _ctxIsActive s' = Some true
   /\ _ctxHasResult s' = Some true
   /\ calls s' = calls s ++ [Focus])
  /\ tree_message s'
     = match _input s with
       | Some j => if Nat.eqb (proto j) (proto i) then tree_message s else None
       | None => None
       end
  /\ disposed s'
     = disposed s ++ match _sessionDisposable s with Some d => [d] | None => [] end
  /\ (dlg_provider (_provider s') = Some (ThenOfModel (serial s))
      /\ dlg_sessionDispoables (_provider s') = None
      /\ dlg_onDidChange (_provider s') = S (dlg_onDidChange (_provider s)))
  /\ suspended s' = suspended (without k s) ++ [AwaitModel i (serial s)]
  /\ _history s' = _history s.
Proof.
  intros K s'. unfold s', step. rewrite K. simpl resume.
  unfold setInput_validated, dispose_session. simpl negb. cbv iota.
  destruct (_sessionDisposable s) as [d|] eqn:D; simpl; rewrite D;
    (destruct (_input s) as [j|]; [destruct (Nat.eqb (proto j) (proto i))|]);
    simpl; rewrite ?app_nil_r; repeat split.
Qed.

Lemma valid_input_becomes_current_witness :
  nth_error (suspended (setInput inputB shownA)) 0 = Some (AwaitValid inputB)
  /\ let s' := step host0 (Settle 0 (Valid true)) (setInput inputB shownA) in
     (_input s' = Some inputB
      /\ tree_title s' = "References"
      /\ _ctxInputSource s' = Some "referencesInput"
      /\ _ctxIsActive s' = Some true
      /\ _ctxHasResult s' = Some true
      /\ calls s' = [Focus; Focus])
     /\ tree_message s' = None
     /\ disposed s' = [[ChangeListener inputA model1]]
     /\ (dlg_provider (_provider s') = Some (ThenOfModel 1)
         /\ dlg_sessionDispoables (_provider s') = None
         /\ dlg_onDidChange (_provider s') = 2)
     /\ suspended s' = [AwaitModel inputB 1]
     /\ _history s' = _history shownA.
Proof.
  split; [reflexivity|].
  apply (@valid_input_becomes_current host0 (setInput inputB shownA) 0 inputB).
  reflexivity.
Defined.



(** ** The delegate between two updates *)

Lemma same_promise_refl p : same_promise p p = true.
Proof. destruct p; apply Nat.eqb_refl. Qed.

(** X16. Two promises are handed to [update] one after the other.  Each
    [update] fires one change event and leaves the delegate without
    subscription.  When the first promise is fulfilled afterwards the
    delegate does not subscribe; when the second is, it subscribes to the
    provider it is fulfilled with. *)
Theorem delegate_subscribes_to_latest_promise_only
    (p q : ProviderPromise) (v : TreeDataProvider) (s : State) :
  same_promise q p = false ->
  let s1 := TreeDataProviderDelegate_update q (TreeDataProviderDelegate_update p s) in
  update_then p v s1 = s1
  /\ dlg_sessionDispoables (_provider (update_then q v s1)) = Some v
  /\ dlg_provider (_provider (update_then q v s1)) = Some q
  /\ dlg_sessionDispoables (_provider s1) = None
  /\ dlg_onDidChange (_provider s1) = 2 + dlg_onDidChange (_provider s).
Proof.
  intros N s1. split; [|split; [|split]].
  - unfold update_then, s1. simpl. now rewrite N.
  - unfold update_then, s1. simpl. now rewrite same_promise_refl.
  - unfold update_then, s1. simpl. now rewrite same_promise_refl.
  - split; reflexivity.
Qed.

Lemma delegate_subscribes_to_latest_promise_only_witness :
  same_promise (ResolveOfHistory 1) (ThenOfModel 0) = false
  /\ let s1 := TreeDataProviderDelegate_update (ResolveOfHistory 1)
                 (TreeDataProviderDelegate_update (ThenOfModel 0)
                    (initial "References")) in
     update_then (ThenOfModel 0) (OfModel 1) s1 = s1
     /\ dlg_sessionDispoables
          (_provider (update_then (ResolveOfHistory 1) History s1)) = Some History
     /\ dlg_provider
          (_provider (update_then (ResolveOfHistory 1) History s1))
        = Some (ResolveOfHistory 1)
     /\ dlg_sessionDispoables (_provider s1) = None
     /\ dlg_onDidChange (_provider s1) = 2.
Proof.
  split; [reflexivity|].
  apply (@delegate_subscribes_to_latest_promise_only
           (ThenOfModel 0) (ResolveOfHistory 1) History (initial "References")).
  reflexivity.
Defined.

Lemma superseded_fulfilled_is_dropped_reachable_witness :
  let s := run trace_resolvingAB (initial "References") in
  nth_error (suspended s) 0 = Some (AwaitModel inputA 0)
  /\ is_input (_input s) inputA = false
  /\ step host0 (Settle 0 (Fulfilled model1)) s = without 0 s.
Proof.
  cbv zeta. split; [reflexivity|]. split; [reflexivity|].
  apply (@superseded_fulfilled_is_dropped_reachable
           "References" trace_resolvingAB host0 0 inputA 0 model1);
    reflexivity.
Defined.
